(** * Shallow embedding of the goldstock company-mapping scripts

    Two versions of the same program live in [src/supabase]:
    - [mapping_script.py]  (module [Strict]: fuzzy floor 80, matched from 90);
    - [mapping_script2.py] (module [Ext]: fuzzy floor 70, matched from 85,
      extended suffix lists, parenthetical aliases).

    Python [str] values are Rocq [string]s over 7-bit ASCII; the character
    classes of Python ([str.isspace], regex [\s] and [\w], [upper]/[lower])
    are their ASCII parts.  Character-level processing is done on
    [list ascii] and converted back. *)

From Stdlib Require Import String Ascii List ZArith Bool Lia Permutation.
From Stdlib Require Import DecimalString DecimalZ.
Import ListNotations.
Open Scope string_scope.
Open Scope list_scope.

Definition chars := list ascii.

(** ** Character classes *)

Definition code (c : ascii) : nat := nat_of_ascii c.

(** [str.isspace] / regex [\s]: HT LF VT FF CR, FS GS RS US, space. *)
Definition isspace (c : ascii) : bool :=
  let n := code c in ((9 <=? n) && (n <=? 13))%nat || ((28 <=? n) && (n <=? 32))%nat.

Definition is_lower (c : ascii) : bool := let n := code c in ((97 <=? n) && (n <=? 122))%nat.
Definition is_upper (c : ascii) : bool := let n := code c in ((65 <=? n) && (n <=? 90))%nat.
Definition is_digit (c : ascii) : bool := let n := code c in ((48 <=? n) && (n <=? 57))%nat.
Definition isalpha (c : ascii) : bool := is_lower c || is_upper c.

(** regex [\w]: letters, digits and underscore. *)
Definition is_word (c : ascii) : bool := isalpha c || is_digit c || Ascii.eqb c "_"%char.

Definition upper_char (c : ascii) : ascii :=
  if is_lower c then ascii_of_nat (code c - 32) else c.
Definition lower_char (c : ascii) : ascii :=
  if is_upper c then ascii_of_nat (code c + 32) else c.

(** ** String helpers (Python [str] methods) *)

Definition py_upper (s : chars) : chars := map upper_char s.
Definition py_lower (s : chars) : chars := map lower_char s.

Fixpoint drop_ws (s : chars) : chars :=
  match s with
  | c :: s' => if isspace c then drop_ws s' else s
  | [] => []
  end.

(** [str.strip()] *)
Definition py_strip (s : chars) : chars := rev (drop_ws (rev (drop_ws s))).

Fixpoint starts_with (p s : chars) : bool :=
  match p, s with
  | [], _ => true
  | a :: p', b :: s' => Ascii.eqb a b && starts_with p' s'
  | _ :: _, [] => false
  end.

(** [s.endswith(p)] *)
Definition ends_with (p s : chars) : bool := starts_with (rev p) (rev s).

(** [s[:-n]] *)
Definition drop_last (n : nat) (s : chars) : chars := firstn (length s - n) s.

Definition L (s : string) : chars := list_ascii_of_string s.
Definition S_ (s : chars) : string := string_of_list_ascii s.

(** Python truthiness of an [Optional[str]]. *)
Definition truthy (x : option string) : bool :=
  match x with None | Some EmptyString => false | Some _ => true end.

(** ** Regular-expression pieces

    [ci_prefix p s]: [s] begins with [p] under [re.IGNORECASE]; returns the
    rest of [s]. *)
Fixpoint ci_prefix (p s : chars) : option chars :=
  match p, s with
  | [], _ => Some s
  | a :: p', b :: s' =>
      if Ascii.eqb (upper_char a) (upper_char b) then ci_prefix p' s' else None
  | _ :: _, [] => None
  end.

(** [$] without MULTILINE: the end of the string, or just before a final
    newline. *)
Definition at_end (r : chars) : bool :=
  match r with
  | [] => true
  | [c] => Ascii.eqb c "010"%char
  | _ => false
  end.

(** [re.sub(pat, '', s)] for a pattern ending in [$]: the leftmost match
    is removed.  [m] tries the pattern at the start of its argument and
    returns what follows the match; what follows a match of such a pattern
    is empty or a final newline, where none of the patterns below matches,
    so the scan ends there. *)
Fixpoint sub_leftmost (m : chars -> option chars) (s : chars) : chars :=
  match m s with
  | Some r => r
  | None =>
      match s with
      | [] => []
      | c :: s' => c :: sub_leftmost m s'
      end
  end.

(** [^(A1|A2|...):] with [re.IGNORECASE]: alternatives tried in order. *)
Fixpoint match_alts_colon (alts : list chars) (s : chars) : option chars :=
  match alts with
  | [] => None
  | a :: alts' =>
      match ci_prefix a s with
      | Some (c :: r) => if Ascii.eqb c ":"%char then Some r else match_alts_colon alts' s
      | _ => match_alts_colon alts' s
      end
  end.

(** [re.sub(r'^(...):', '', s)]: [^] only matches at position 0. *)
Definition sub_prefix (alts : list chars) (s : chars) : chars :=
  match match_alts_colon alts s with Some r => r | None => s end.

(** [(A1|A2|...)$] with [re.IGNORECASE], alternatives tried in order. *)
Fixpoint match_alts_end (alts : list chars) (s : chars) : option chars :=
  match alts with
  | [] => None
  | a :: alts' =>
      match ci_prefix a s with
      | Some r => if at_end r then Some r else match_alts_end alts' s
      | None => match_alts_end alts' s
      end
  end.

(** [\.(A1|A2|...)$] tried at the start of its argument. *)
Definition match_dot_suffix (alts : list chars) (s : chars) : option chars :=
  match s with
  | c :: r => if Ascii.eqb c "."%char then match_alts_end alts r else None
  | [] => None
  end.

Definition sub_suffix (alts : list chars) (s : chars) : chars :=
  sub_leftmost (match_dot_suffix alts) s.

(** [re.sub(r'[.\-_]', '', s)] *)
Definition is_ticker_punct (c : ascii) : bool :=
  Ascii.eqb c "."%char || Ascii.eqb c "-"%char || Ascii.eqb c "_"%char.
Definition remove_ticker_punct (s : chars) : chars :=
  filter (fun c => negb (is_ticker_punct c)) s.

(** [re.sub(r'\s+<word>(<c>)?$', '', s)] tried at the start of [s]
    ([re.IGNORECASE]).  [\s+] takes the whole run of white space: giving
    some back cannot help, since every word starts with a letter.  The
    optional character is greedy: it is tried first. *)
Definition match_ws_word (w : chars) (o : option ascii) (s : chars) : option chars :=
  match s with
  | c :: _ =>
      if isspace c then
        match ci_prefix w (drop_ws s) with
        | Some r1 =>
            let with_opt :=
              match o, r1 with
              | Some d, d' :: r2 =>
                  if Ascii.eqb (upper_char d) (upper_char d') && at_end r2 then Some r2 else None
              | _, _ => None
              end in
            match with_opt with
            | Some r2 => Some r2
            | None => if at_end r1 then Some r1 else None
            end
        | None => None
        end
      else None
  | [] => None
  end.

(** [re.sub(r'\s+', ' ', s)]; [in_run] says a white-space run has begun. *)
Fixpoint collapse_ws (in_run : bool) (s : chars) : chars :=
  match s with
  | [] => []
  | c :: s' =>
      if isspace c then
        if in_run then collapse_ws true s' else " "%char :: collapse_ws true s'
      else c :: collapse_ws false s'
  end.

(** [re.sub(r'[^\w\s]', ' ', s)] *)
Definition blank_specials (s : chars) : chars :=
  map (fun c => if is_word c || isspace c then c else " "%char) s.

(** [normalize_name] with a given ordered suffix list: lower-case, one
    [re.sub] per suffix pattern in list order, then the clean-up. *)
Definition normalize_name_with (suffixes : list (chars * option ascii))
    (name : option string) : string :=
  if negb (truthy name) then "" else
  let n := match name with Some n => L n | None => [] end in
  let n1 := py_lower n in
  let n2 := fold_left (fun acc p => sub_leftmost (match_ws_word (fst p) (snd p)) acc)
              suffixes n1 in
  let n3 := blank_specials n2 in
  let n4 := collapse_ws false n3 in
  S_ (py_strip n4).

(** [str.split()]: [cur] is the current word, reversed. *)
Fixpoint split_aux (cur : chars) (s : chars) : list chars :=
  match s with
  | [] => match cur with [] => [] | _ => [rev cur] end
  | c :: s' =>
      if isspace c then
        match cur with [] => split_aux [] s' | _ => rev cur :: split_aux [] s' end
      else split_aux (c :: cur) s'
  end.
Definition py_split (s : chars) : list chars := split_aux [] s.

(** [sub in s] *)
Fixpoint contains (sub s : chars) : bool :=
  starts_with sub s || match s with [] => false | _ :: s' => contains sub s' end.

Definition has_char (c : ascii) (s : chars) : bool := existsb (Ascii.eqb c) s.

(** [s.replace(old, new)] for a non-empty [old]: every step consumes at
    least one character, so [length s] steps suffice. *)
Fixpoint replace_fuel (fuel : nat) (old new s : chars) : chars :=
  match fuel with
  | O => s
  | S f =>
      match s with
      | [] => []
      | c :: s' =>
          if starts_with old s then new ++ replace_fuel f old new (skipn (length old) s)
          else c :: replace_fuel f old new s'
      end
  end.
Definition py_replace (old new s : chars) : chars := replace_fuel (length s) old new s.

(** The pattern [\(([^)]+)\)] scanned left to right, as [re.sub] (kept
    text) and [re.findall] (captured contents) see it.  [acc] is [Some a]
    after an opening parenthesis, [a] the characters read since, reversed.
    [[^)]+] runs to the first [)]: at a [)] the match succeeds when [a] is
    non-empty; an empty [()] does not match and both characters are kept;
    an opening parenthesis with no [)] after it matches nothing, and no
    later one can. *)
Fixpoint paren_scan (acc : option chars) (s : chars) : chars * list chars :=
  match s, acc with
  | [], None => ([], [])
  | [], Some a => ("("%char :: rev a, [])
  | c :: s', None =>
      if Ascii.eqb c "("%char then paren_scan (Some []) s'
      else let '(k, cs) := paren_scan None s' in (c :: k, cs)
  | c :: s', Some a =>
      if Ascii.eqb c ")"%char then
        match a with
        | [] => let '(k, cs) := paren_scan None s' in ("("%char :: ")"%char :: k, cs)
        | _ => let '(k, cs) := paren_scan None s' in (k, rev a :: cs)
        end
      else paren_scan (Some (c :: a)) s'
  end.

(** [re.sub(r'\([^)]+\)', '', s)] and [re.findall(r'\(([^)]+)\)', s)] *)
Definition paren_removed (s : chars) : chars := fst (paren_scan None s).
Definition paren_contents (s : chars) : list chars := snd (paren_scan None s).

(** [list(set(xs))]: the order of a Python set is unspecified; the model
    keeps one order (only membership is used). *)
Definition py_set_list (xs : list string) : list string := nodup string_dec xs.

Definition nonempty (s : chars) : bool := match s with [] => false | _ => true end.


(** [not xs] for a Python list. *)
Definition null {A} (xs : list A) : bool := match xs with [] => true | _ => false end.

(** Python truthiness of an [Optional] object (a dataclass is always true). *)
Definition isSome {A} (x : option A) : bool := match x with Some _ => true | None => false end.

(** [str(n)] for an integer. *)
Definition py_str_int (n : Z) : string := NilEmpty.string_of_int (Z.to_int n).

(** [range(a, b)] *)
Definition py_range (a b : Z) : list Z :=
  map (fun k => a + Z.of_nat k)%Z (seq 0 (Z.to_nat (b - a))).

(** [xs[:n]] *)
Definition py_take {A} (n : Z) (xs : list A) : list A :=
  if (0 <=? n)%Z then firstn (Z.to_nat n) xs
  else firstn (length xs - Z.to_nat (- n)) xs.

(** ** Python dicts as association lists: [d[k] = v] updates a present key
    in place and appends a new one. *)
Section Dict.
Context {K V : Type} (eqk : K -> K -> bool).

Fixpoint dict_get (k : K) (d : list (K * V)) : option V :=
  match d with
  | [] => None
  | (k', v) :: d' => if eqk k k' then Some v else dict_get k d'
  end.

Fixpoint dict_set (k : K) (v : V) (d : list (K * V)) : list (K * V) :=
  match d with
  | [] => [(k, v)]
  | (k', v') :: d' => if eqk k k' then (k', v) :: d' else (k', v') :: dict_set k v d'
  end.
End Dict.

(** ** Data model (the dataclasses) *)

Module Company.
Record t := mk { company_id : Z; company_name : string; tsx_code : option string }.
End Company.

Module Goldstock.
(** [GoldstockCompany]; [exchange] only exists in mapping_script2.py, the
    other script leaves it [None]. *)
Record t := mk { goldstock_id : string; company_name : string; ticker : option string;
                 aliases : list string; exchange : option string }.
End Goldstock.

Inductive status := matched | manual | unmatched.
Inductive method := known_mapping | exact_ticker | exact_name | fuzzy_name | none.

Module Mapping.
Record t := mk { company_id : Z; company_name : string; tsx_code : option string;
                 goldstock_id : option string; goldstock_name : option string;
                 match_status : status; confidence_score : Z; match_method : method }.
End Mapping.

(** An entry of [known_mappings]. *)
Module Known.
Record t := mk { goldstock_id : string; goldstock_name : string; confidence_score : Z }.
End Known.

(** The checkpoint dict [{"processed_ids": [...], "mappings": [...]}]. *)
Module Checkpoint.
Record t := mk { processed_ids : list Z; mappings : list Mapping.t }.
Definition empty : t := mk [] [].
End Checkpoint.

(** The known-mapping table of both [main]s. *)
Definition known_mappings : list (Z * Known.t) :=
  [(8, Known.mk "1" "Abcourt Mines Inc" 100);
   (10, Known.mk "8" "Agnico Eagle Mines Ltd" 100);
   (331, Known.mk "374" "Probe Gold Inc" 100);
   (48, Known.mk "1470" "Aya Gold & Silver Inc." 100);
   (313, Known.mk "605" "Aura Minerals Inc." 100)]%Z.

(** ** Persistent and shared state of a run

    [cache] and [checkpoint] are the dicts held by the one [CompanyMatcher]
    object: every function that receives [matcher] reads and mutates them,
    so they are single fields of the state.  The files hold what was last
    written ([None]: no file).  [fetch_log] lists the IDs for which the
    site was requested. *)
Record World := mkWorld {
  cache : list (string * option Goldstock.t);
  cache_file : option (list (string * option Goldstock.t));
  checkpoint : Checkpoint.t;
  checkpoint_file : option Checkpoint.t;
  output_file : option (list Mapping.t);
  fetch_log : list Z }.

Definition set_cache (w : World) (c : list (string * option Goldstock.t)) : World :=
  mkWorld c (cache_file w) (checkpoint w) (checkpoint_file w) (output_file w) (fetch_log w).
Definition set_cache_file (w : World) (f : option (list (string * option Goldstock.t))) : World :=
  mkWorld (cache w) f (checkpoint w) (checkpoint_file w) (output_file w) (fetch_log w).
Definition set_checkpoint (w : World) (c : Checkpoint.t) : World :=
  mkWorld (cache w) (cache_file w) c (checkpoint_file w) (output_file w) (fetch_log w).
Definition set_checkpoint_file (w : World) (f : option Checkpoint.t) : World :=
  mkWorld (cache w) (cache_file w) (checkpoint w) f (output_file w) (fetch_log w).
Definition set_output_file (w : World) (f : option (list Mapping.t)) : World :=
  mkWorld (cache w) (cache_file w) (checkpoint w) (checkpoint_file w) f (fetch_log w).
Definition log_fetch (w : World) (gid : Z) : World :=
  mkWorld (cache w) (cache_file w) (checkpoint w) (checkpoint_file w) (output_file w)
    (fetch_log w ++ [gid]).

(** [CompanyMatcher.save_cache]: writes a copy of the cache. *)
Definition save_cache (w : World) : World := set_cache_file w (Some (cache w)).

(** [CompanyMatcher.save_checkpoint]: mutates [matcher.checkpoint], then
    writes it. *)
Definition save_checkpoint (ms : list Mapping.t) (w : World) : World :=
  let ck := Checkpoint.mk (map Mapping.company_id ms) ms in
  set_checkpoint_file (set_checkpoint w ck) (Some ck).

(** [save_mappings]: rewrites the CSV table. *)
Definition save_mappings (ms : list Mapping.t) (w : World) : World :=
  set_output_file w (Some ms).

(** The constructor of [CompanyMatcher]: loads the cache and checkpoint
    files written by earlier runs ([{}] and the empty checkpoint when
    absent). *)
Definition new_matcher (w : World) : World :=
  let c := match cache_file w with Some d => d | None => [] end in
  let ck := match checkpoint_file w with Some ck => ck | None => Checkpoint.empty end in
  set_checkpoint (set_cache w c) ck.

(** What the site answers for an ID, after the (out of scope) HTML field
    extraction: a 404, a failed request, or a page with the extracted name,
    ticker and exchange. *)
Inductive Response :=
  | Page404
  | RequestFailed
  | Page (name : option string) (ticker : option string) (exchange : option string).

(** The command-line arguments. *)
Record Args := mkArgs { limit : option Z; max_id : Z; workers : Z; resume : bool; clear_cache : bool }.

(** How [main] ends. *)
Inductive exit_status := returned | sys_exit (code : Z) | raised (exc : string).

(** ** Reading the persisted JSON files

    A file is absent, unreadable ([open] raises an [OSError]), holds text
    that [json.load] rejects (a [JSONDecodeError], or a
    [UnicodeDecodeError] for bytes that are not UTF-8), or holds the JSON
    text of a value. *)
#[warnings="-register-all"]
Inductive json :=
  | JNull | JBool (b : bool) | JNum (z : Z) | JStr (s : string)
  | JArray (xs : list json) | JObject (kvs : list (string * json)).

Inductive file_content := Absent | Unreadable | Undecodable | Malformed | Holds (v : json).

Inductive py_exc := OSError | UnicodeDecodeError | JSONDecodeError | FileNotFoundError.

(** All of them are subclasses of [Exception]. *)
Definition is_Exception (e : py_exc) : bool := true.

Inductive py_result (A : Type) := Ok (v : A) | Raise (e : py_exc).
Arguments Ok {A} v.
Arguments Raise {A} e.

(** [Path.exists()] *)
Definition file_exists (f : file_content) : bool := match f with Absent => false | _ => true end.

(** [with open(path) as f: return json.load(f)] *)
Definition open_and_load (f : file_content) : py_result json :=
  match f with
  | Absent => Raise FileNotFoundError
  | Unreadable => Raise OSError
  | Undecodable => Raise UnicodeDecodeError
  | Malformed => Raise JSONDecodeError
  | Holds v => Ok v
  end.

Definition empty_checkpoint_json : json :=
  JObject [("processed_ids", JArray []); ("mappings", JArray [])].

(** ** fuzzywuzzy's [process.extractOne]

    [token_sort_ratio q c] is the library's score of choice [c] for query
    [q], the library's own string processing included.  Choices scoring
    below the cutoff are dropped; [max] keeps the first maximum; no choice
    left gives [None]. *)
Section ExtractOne.
Variable token_sort_ratio : string -> string -> Z.

(** One step of [process.extractOne]'s scan: a choice scoring at least the
    cutoff replaces the best one so far only when it scores strictly more. *)
Definition extract_step (query : string) (score_cutoff : Z) (best : option (string * Z))
    (ch : string) : option (string * Z) :=
  let sc := token_sort_ratio query ch in
  if (score_cutoff <=? sc)%Z then
    match best with
    | None => Some (ch, sc)
    | Some (_, bs) => if (bs <? sc)%Z then Some (ch, sc) else best
    end
  else best.

Definition extract_one (query : string) (choices : list string) (score_cutoff : Z)
    : option (string * Z) :=
  fold_left (extract_step query score_cutoff) choices None.
End ExtractOne.

(** ** mapping_script.py *)
Module Strict.

Definition exchange_prefixes : list chars :=
  map L ["CVE"; "TSE"; "TSX"; "TSXV"; "CSE"; "CNSX"; "NYSE"; "NASDAQ"; "OTC"].
Definition exchange_suffixes : list chars :=
  map L ["V"; "TO"; "CN"; "T"; "VN"; "WT"].

(** [CompanyMatcher.load_cache] (lines 84-91): a bare [except:]. *)
Definition load_cache (f : file_content) : py_result json :=
  if file_exists f then
    match open_and_load f with Ok v => Ok v | Raise _ => Ok (JObject []) end
  else Ok (JObject []).

(** [CompanyMatcher.load_checkpoint] (lines 103-110). *)
Definition load_checkpoint (f : file_content) : py_result json :=
  if file_exists f then
    match open_and_load f with Ok v => Ok v | Raise _ => Ok empty_checkpoint_json end
  else Ok empty_checkpoint_json.

(** [normalize_ticker] (lines 125-155). *)
Definition normalize_ticker (ticker : option string) : option string :=
  if negb (truthy ticker) then None else
  let t := match ticker with Some t => L t | None => [] end in
  if ends_with (L ".CN") t then
    Some (S_ (py_upper (py_strip (drop_last 3 t))))
  else
    let t1 := sub_prefix exchange_prefixes t in
    let t2 := sub_suffix exchange_suffixes t1 in
    let t3 := remove_ticker_punct t2 in
    Some (S_ (py_upper (py_strip t3))).

Definition name_suffixes : list (chars * option ascii) :=
  [(L "inc", Some "."%char); (L "ltd", Some "."%char); (L "limited", None);
   (L "corp", Some "."%char); (L "corporation", None); (L "plc", None);
   (L "llc", None); (L "sa", None); (L "ag", None); (L "mining", None);
   (L "mines", None); (L "resources", None); (L "minerals", None);
   (L "gold", None); (L "silver", None); (L "metals", None);
   (L "exploration", None)].

(** [normalize_name] (lines 157-180). *)
Definition normalize_name (name : option string) : string :=
  normalize_name_with name_suffixes name.

(** [extract_company_aliases] (lines 182-206). *)
Definition extract_company_aliases (name : string) : list string :=
  let n := L name in
  let a0 := [name] in
  let a1 :=
    if has_char "("%char n && has_char ")"%char n then
      let clean_name := py_strip (paren_removed n) in
      if nonempty clean_name then a0 ++ [S_ clean_name] else a0
    else a0 in
  let words := py_split n in
  let a2 :=
    if (1 <? length words)%nat then
      let abbrev := flat_map (fun w => match w with c :: _ => [upper_char c] | [] => [] end) words in
      if (1 <? length abbrev)%nat then a1 ++ [S_ abbrev] else a1
    else a1 in
  let a3 := if has_char "&"%char n then a2 ++ [S_ (py_replace (L "&") (L "and") n)] else a2 in
  let a4 := if contains (L " and ") n then a3 ++ [S_ (py_replace (L " and ") (L " & ") n)] else a3 in
  py_set_list a4.

(** [fetch_company_by_id] (lines 212-345). *)
Definition fetch_company_by_id (site : Z -> Response) (goldstock_id : Z) (w : World)
    : option Goldstock.t * World :=
  let cache_key := ("goldstock_" ++ py_str_int goldstock_id)%string in
  match dict_get String.eqb cache_key (cache w) with
  | Some cached => (cached, w)
  | None =>
      let w := log_fetch w goldstock_id in
      match site goldstock_id with
      | Page404 => (None, set_cache w (dict_set String.eqb cache_key None (cache w)))
      | RequestFailed => (None, w)
      | Page name ticker _ =>
          match name with
          | Some company_name =>
              if truthy name then
                let result := Goldstock.mk (py_str_int goldstock_id) company_name ticker
                                (extract_company_aliases company_name) None in
                let w1 := set_cache w (dict_set String.eqb cache_key (Some result) (cache w)) in
                (Some result,
                 if (Nat.modulo (length (cache w1)) 50 =? 0)%nat then save_cache w1 else w1)
              else
                let w1 := set_cache w (dict_set String.eqb cache_key None (cache w)) in
                (None, if (Nat.modulo (length (cache w1)) 50 =? 0)%nat then save_cache w1 else w1)
          | None =>
              let w1 := set_cache w (dict_set String.eqb cache_key None (cache w)) in
              (None, if (Nat.modulo (length (cache w1)) 50 =? 0)%nat then save_cache w1 else w1)
          end
      end
  end.

(** [fetch_companies_parallel] (lines 347-377), completions taken in
    submission order (the schedule of a one-worker pool). *)
Fixpoint fetch_all (site : Z -> Response) (ids : list Z) (companies : list Goldstock.t)
    (w : World) : list Goldstock.t * World :=
  match ids with
  | [] => (companies, w)
  | gid :: rest =>
      let '(result, w) := fetch_company_by_id site gid w in
      let companies := match result with Some r => companies ++ [r] | None => companies end in
      fetch_all site rest companies w
  end.

Definition fetch_companies_parallel (site : Z -> Response) (start_id max_id : Z) (w : World)
    : list Goldstock.t * World :=
  fetch_all site (py_range start_id (max_id + 1)) [] w.

(** The two lookup dicts of [perform_matching] (lines 384-402), built in
    one loop. *)
Definition build_indexes (goldstock_companies : list Goldstock.t)
    : list (string * Goldstock.t) * list (string * Goldstock.t) :=
  fold_left
    (fun '(by_ticker, by_name) gs =>
       let by_ticker :=
         if truthy (Goldstock.ticker gs) then
           match normalize_ticker (Goldstock.ticker gs) with
           | Some nt => if truthy (Some nt) then dict_set String.eqb nt gs by_ticker else by_ticker
           | None => by_ticker
           end
         else by_ticker in
       let normalized := normalize_name (Some (Goldstock.company_name gs)) in
       let by_name :=
         if truthy (Some normalized) then dict_set String.eqb normalized gs by_name else by_name in
       let by_name :=
         fold_left
           (fun d alias =>
              let normalized_alias := normalize_name (Some alias) in
              if truthy (Some normalized_alias) then dict_set String.eqb normalized_alias gs d else d)
           (Goldstock.aliases gs) by_name in
       (by_ticker, by_name))
    goldstock_companies ([], []).

Definition mk_mapping (c : Company.t) (gid gname : option string) (st : status)
    (conf : Z) (m : method) : Mapping.t :=
  Mapping.mk (Company.company_id c) (Company.company_name c) (Company.tsx_code c)
    gid gname st conf m.

Section Matching.
Variable token_sort_ratio : string -> string -> Z.

(** The body of the loop of [perform_matching] for one company
    (lines 412-526); each [continue] returns. *)
Definition match_company (goldstock_companies : list Goldstock.t)
    (known : list (Z * Known.t)) (gs_by_ticker gs_by_normalized_name : list (string * Goldstock.t))
    (company : Company.t) : Mapping.t :=
  match dict_get Z.eqb (Company.company_id company) known with
  | Some k =>
      mk_mapping company (Some (Known.goldstock_id k)) (Some (Known.goldstock_name k))
        matched (Known.confidence_score k) known_mapping
  | None =>
      let ticker_match :=
        if truthy (Company.tsx_code company) then
          match normalize_ticker (Company.tsx_code company) with
          | Some nt => if truthy (Some nt) then dict_get String.eqb nt gs_by_ticker else None
          | None => None
          end
        else None in
      match ticker_match with
      | Some m =>
          mk_mapping company (Some (Goldstock.goldstock_id m)) (Some (Goldstock.company_name m))
            matched 100 exact_ticker
      | None =>
          let normalized_name := normalize_name (Some (Company.company_name company)) in
          match dict_get String.eqb normalized_name gs_by_normalized_name with
          | Some m =>
              mk_mapping company (Some (Goldstock.goldstock_id m)) (Some (Goldstock.company_name m))
                matched 95 exact_name
          | None =>
              let all_gs_names := map (fun gs => (Goldstock.company_name gs, gs)) goldstock_companies in
              let best :=
                if truthy (Some normalized_name) && negb (null all_gs_names) then
                  let normalized_gs_names := map (fun p => normalize_name (Some (fst p))) all_gs_names in
                  match extract_one token_sort_ratio normalized_name normalized_gs_names 0 with
                  | Some (matched_name, score) =>
                      match find (fun p => String.eqb (normalize_name (Some (fst p))) matched_name)
                              all_gs_names with
                      | Some (_, gs) => if (80 <=? score)%Z then Some (gs, score) else None
                      | None => None
                      end
                  | None => None
                  end
                else None in
              match best with
              | Some (best_match, best_score) =>
                  if (80 <=? best_score)%Z then
                    mk_mapping company (Some (Goldstock.goldstock_id best_match))
                      (Some (Goldstock.company_name best_match))
                      (if (90 <=? best_score)%Z then matched else manual) best_score fuzzy_name
                  else mk_mapping company None None unmatched 0 none
              | None => mk_mapping company None None unmatched 0 none
              end
          end
      end
  end.

(** The loop of [perform_matching]: a checkpoint and the table every ten
    mappings. *)
Fixpoint matching_loop (goldstock_companies : list Goldstock.t) (known : list (Z * Known.t))
    (by_ticker by_name : list (string * Goldstock.t)) (companies : list Company.t)
    (mappings : list Mapping.t) (w : World) : list Mapping.t * World :=
  match companies with
  | [] => (mappings, w)
  | company :: rest =>
      let mappings :=
        mappings ++ [match_company goldstock_companies known by_ticker by_name company] in
      let w :=
        if (Nat.modulo (length mappings) 10 =? 0)%nat
        then save_mappings mappings (save_checkpoint mappings w) else w in
      matching_loop goldstock_companies known by_ticker by_name rest mappings w
  end.

(** [perform_matching] (lines 379-546). *)
Definition perform_matching (companies : list Company.t) (goldstock_companies : list Goldstock.t)
    (known : list (Z * Known.t)) (w : World) : list Mapping.t * World :=
  let '(by_ticker, by_name) := build_indexes goldstock_companies in
  let '(mappings, w) := matching_loop goldstock_companies known by_ticker by_name companies [] w in
  let w := save_mappings mappings w in
  let w := save_checkpoint mappings w in
  (mappings, w).

(** [load_companies] (lines 548-570); [None]: the file is missing or not
    JSON. *)
Definition load_companies (lim : option Z) (data : option (list Company.t)) : list Company.t :=
  match data with
  | None => []
  | Some d => match lim with Some n => if (n =? 0)%Z then d else py_take n d | None => d end
  end.

(** [main] (lines 590-668). *)
Definition main (args : Args) (data : option (list Company.t)) (site : Z -> Response)
    (w : World) : World * exit_status :=
  let w := if clear_cache args then set_cache_file w None else w in
  let w := new_matcher w in
  let companies := load_companies (limit args) data in
  if null companies then (w, returned) else
  let processed := Checkpoint.processed_ids (checkpoint w) in
  let companies :=
    if resume args && negb (null processed)
    then filter (fun c => negb (existsb (Z.eqb (Company.company_id c)) processed)) companies
    else companies in
  let '(goldstock_companies, w) := fetch_companies_parallel site 1 (max_id args) w in
  if null goldstock_companies then (w, returned) else
  let '(mappings, w) := perform_matching companies goldstock_companies known_mappings w in
  let mappings :=
    if resume args && negb (null (Checkpoint.mappings (checkpoint w)))
    then Checkpoint.mappings (checkpoint w) ++ mappings else mappings in
  let w := save_mappings mappings w in
  if null mappings then (w, raised "ZeroDivisionError") else
  (set_checkpoint_file w None, returned).


End Matching.

End Strict.

(** ** mapping_script2.py *)
Module Ext.

Definition exchange_prefixes : list chars :=
  map L ["CVE"; "TSE"; "TSX"; "TSXV"; "CSE"; "CNSX"; "NYSE"; "NASDAQ"; "OTC"; "NEO"].
Definition exchange_suffixes : list chars :=
  map L ["V"; "TO"; "CN"; "T"; "VN"; "WT"; "CSE"; "NEO"].

(** [CompanyMatcher.load_cache] (lines 85-93): [except Exception]. *)
Definition load_cache (f : file_content) : py_result json :=
  if file_exists f then
    match open_and_load f with
    | Ok v => Ok v
    | Raise e => if is_Exception e then Ok (JObject []) else Raise e
    end
  else Ok (JObject []).

(** [CompanyMatcher.load_checkpoint] (lines 103-111). *)
Definition load_checkpoint (f : file_content) : py_result json :=
  if file_exists f then
    match open_and_load f with
    | Ok v => Ok v
    | Raise e => if is_Exception e then Ok empty_checkpoint_json else Raise e
    end
  else Ok empty_checkpoint_json.

(** [normalize_ticker] (lines 130-146). *)
Definition normalize_ticker (ticker : option string) : option string :=
  if negb (truthy ticker) then None else
  let t := match ticker with Some t => L t | None => [] end in
  let t1 := sub_prefix exchange_prefixes t in
  let t2 := sub_suffix exchange_suffixes t1 in
  let t3 := remove_ticker_punct t2 in
  Some (S_ (py_upper (py_strip t3))).

Definition name_suffixes : list (chars * option ascii) :=
  Strict.name_suffixes ++
  [(L "venture", Some "s"%char); (L "holding", Some "s"%char);
   (L "group", None); (L "international", None)].

(** [normalize_name] (lines 148-168). *)
Definition normalize_name (name : option string) : string :=
  normalize_name_with name_suffixes name.

(** [extract_company_aliases] (lines 170-196). *)
Definition extract_company_aliases (name : string) : list string :=
  let n := L name in
  let a0 := [name] in
  let a1 :=
    if has_char "("%char n && has_char ")"%char n then
      let clean_name := py_strip (paren_removed n) in
      let b := if nonempty clean_name then a0 ++ [S_ clean_name] else a0 in
      b ++ map S_ (paren_contents n)
    else a0 in
  let words := py_split n in
  let a2 :=
    if (1 <? length words)%nat then
      let abbrev := flat_map (fun w => match w with
                                       | c :: _ => if isalpha c then [upper_char c] else []
                                       | [] => [] end) words in
      if (1 <? length abbrev)%nat then a1 ++ [S_ abbrev] else a1
    else a1 in
  let a3 := if has_char "&"%char n then a2 ++ [S_ (py_replace (L "&") (L "and") n)] else a2 in
  let a4 := if contains (L " and ") (py_lower n) then a3 ++ [S_ (py_replace (L " and ") (L " & ") n)] else a3 in
  py_set_list a4.

(** [fetch_company_by_id] (lines 274-352). *)
Definition fetch_company_by_id (site : Z -> Response) (goldstock_id : Z) (w : World)
    : option Goldstock.t * World :=
  let cache_key := ("goldstock_" ++ py_str_int goldstock_id)%string in
  let store v w :=
    let w1 := set_cache w (dict_set String.eqb cache_key v (cache w)) in
    if (Nat.modulo (length (cache w1)) 50 =? 0)%nat then save_cache w1 else w1 in
  match dict_get String.eqb cache_key (cache w) with
  | Some cached => (cached, w)
  | None =>
      let w := log_fetch w goldstock_id in
      match site goldstock_id with
      | Page404 => (None, store None w)
      | RequestFailed => (None, w)
      | Page name ticker exchange =>
          match name with
          | Some company_name =>
              if truthy name then
                let result := Goldstock.mk (py_str_int goldstock_id) company_name ticker
                                (extract_company_aliases company_name) exchange in
                (Some result, store (Some result) w)
              else (None, store None w)
          | None => (None, store None w)
          end
      end
  end.

(** [fetch_companies_parallel] (lines 354-379), completions taken in
    submission order (the schedule of a one-worker pool). *)
Fixpoint fetch_all (site : Z -> Response) (ids : list Z) (companies : list Goldstock.t)
    (w : World) : list Goldstock.t * World :=
  match ids with
  | [] => (companies, w)
  | gid :: rest =>
      let '(result, w) := fetch_company_by_id site gid w in
      let companies := match result with Some r => companies ++ [r] | None => companies end in
      fetch_all site rest companies w
  end.

Definition fetch_companies_parallel (site : Z -> Response) (start_id max_id : Z) (w : World)
    : list Goldstock.t * World :=
  fetch_all site (py_range start_id (max_id + 1)) [] w.

(** [gs_by_ticker] (lines 389-394). *)
Definition build_ticker_index (goldstock_companies : list Goldstock.t) : list (string * Goldstock.t) :=
  fold_left
    (fun d gs =>
       if truthy (Goldstock.ticker gs) then
         match normalize_ticker (Goldstock.ticker gs) with
         | Some normalized => if truthy (Some normalized) then dict_set String.eqb normalized gs d else d
         | None => d
         end
       else d)
    goldstock_companies [].

(** [gs_by_normalized_name] (lines 396-404). *)
Definition build_name_index (goldstock_companies : list Goldstock.t) : list (string * Goldstock.t) :=
  fold_left
    (fun d gs =>
       let normalized := normalize_name (Some (Goldstock.company_name gs)) in
       let d := if truthy (Some normalized) then dict_set String.eqb normalized gs d else d in
       fold_left
         (fun d alias =>
            let normalized_alias := normalize_name (Some alias) in
            if truthy (Some normalized_alias) then dict_set String.eqb normalized_alias gs d else d)
         (Goldstock.aliases gs) d)
    goldstock_companies [].

(** The local variables of one iteration of the matching loop. *)
Record Locals := mkLocals {
  l_match : option Goldstock.t; l_confidence : Z; l_status : status;
  l_goldstock_id : option string; l_goldstock_name : option string; l_match_method : method }.

Definition found (gs : Goldstock.t) (confidence : Z) (st : status) (m : method) : Locals :=
  mkLocals (Some gs) confidence st (Some (Goldstock.goldstock_id gs))
    (Some (Goldstock.company_name gs)) m.

Section Matching.
Variable token_sort_ratio : string -> string -> Z.

(** The body of the loop of [perform_matching] for one company
    (lines 417-501). *)
Definition match_company (goldstock_companies : list Goldstock.t)
    (known : list (Z * Known.t)) (gs_by_ticker gs_by_normalized_name : list (string * Goldstock.t))
    (company : Company.t) : Mapping.t :=
  let normalized_tsx_code := normalize_ticker (Company.tsx_code company) in
  let normalized_company_name := normalize_name (Some (Company.company_name company)) in
  let l0 := mkLocals None 0 unmatched None None none in
  (* known mappings *)
  let l1 :=
    match dict_get Z.eqb (Company.company_id company) known with
    | Some k =>
        mkLocals (Some (Goldstock.mk (Known.goldstock_id k) (Known.goldstock_name k) None [] None))
          (Known.confidence_score k) matched (Some (Known.goldstock_id k))
          (Some (Known.goldstock_name k)) known_mapping
    | None => l0
    end in
  (* exact ticker *)
  let l2 :=
    if negb (isSome (l_match l1)) && truthy normalized_tsx_code then
      match normalized_tsx_code with
      | Some t =>
          match dict_get String.eqb t gs_by_ticker with
          | Some m => found m 100 matched exact_ticker
          | None => l1
          end
      | None => l1
      end
    else l1 in
  (* exact name *)
  let l3 :=
    if negb (isSome (l_match l2)) then
      match dict_get String.eqb normalized_company_name gs_by_normalized_name with
      | Some m => found m 95 matched exact_name
      | None => l2
      end
    else l2 in
  (* fuzzy name *)
  let l4 :=
    if negb (isSome (l_match l3)) && truthy (Some normalized_company_name) then
      let all_gs_names := map (fun gs => (Goldstock.company_name gs, gs)) goldstock_companies in
      let choices := map (fun p => normalize_name (Some (fst p))) all_gs_names in
      match extract_one token_sort_ratio normalized_company_name choices 70 with
      | Some (matched_name, score) =>
          (* [choices.index(matched_name)] *)
          match find (fun p => String.eqb (normalize_name (Some (fst p))) matched_name) all_gs_names with
          | Some (_, m) => found m score (if (85 <=? score)%Z then matched else manual) fuzzy_name
          | None => l3
          end
      | None => l3
      end
    else l3 in
  Mapping.mk (Company.company_id company) (Company.company_name company) (Company.tsx_code company)
    (l_goldstock_id l4) (l_goldstock_name l4) (l_status l4) (l_confidence l4) (l_match_method l4).

(** The loop of [perform_matching]: [i] is the [enumerate] index, [n] is
    [len(companies)]. *)
Fixpoint matching_loop (goldstock_companies : list Goldstock.t) (known : list (Z * Known.t))
    (by_ticker by_name : list (string * Goldstock.t)) (i n : nat) (companies : list Company.t)
    (mappings : list Mapping.t) (w : World) : list Mapping.t * World :=
  match companies with
  | [] => (mappings, w)
  | company :: rest =>
      let mappings :=
        mappings ++ [match_company goldstock_companies known by_ticker by_name company] in
      let w :=
        if (Nat.modulo (i + 1) 10 =? 0)%nat || (i =? n - 1)%nat
        then save_checkpoint mappings (save_mappings mappings w) else w in
      matching_loop goldstock_companies known by_ticker by_name (S i) n rest mappings w
  end.

(** [perform_matching] (lines 381-523). *)
Definition perform_matching (companies : list Company.t) (goldstock_companies : list Goldstock.t)
    (known : list (Z * Known.t)) (w : World) : list Mapping.t * World :=
  if null goldstock_companies then ([], w) else
  let by_ticker := build_ticker_index goldstock_companies in
  let by_name := build_name_index goldstock_companies in
  matching_loop goldstock_companies known by_ticker by_name 0 (length companies) companies [] w.

(** [load_companies] (lines 525-547). *)
Definition load_companies (lim : option Z) (data : option (list Company.t)) : list Company.t :=
  match data with
  | None => []
  | Some d => match lim with Some n => py_take n d | None => d end
  end.

(** [main] (lines 578-684); [verify_logo] only sends HEAD requests and
    logs. *)
Definition main (args : Args) (data : option (list Company.t)) (site : Z -> Response)
    (w : World) : World * exit_status :=
  let w := if clear_cache args then set_checkpoint_file (set_cache_file w None) None else w in
  let w := new_matcher w in
  let companies := load_companies (limit args) data in
  if null companies then (w, sys_exit 1) else
  let processed := Checkpoint.processed_ids (checkpoint w) in
  let companies :=
    if resume args && negb (null processed)
    then filter (fun c => negb (existsb (Z.eqb (Company.company_id c)) processed)) companies
    else companies in
  let '(goldstock_companies, w) := fetch_companies_parallel site 1 (max_id args) w in
  if null goldstock_companies then (w, sys_exit 1) else
  let '(mappings, w) := perform_matching companies goldstock_companies known_mappings w in
  let mappings :=
    if resume args && negb (null (Checkpoint.mappings (checkpoint w)))
    then Checkpoint.mappings (checkpoint w) ++ mappings else mappings in
  let w := save_mappings mappings w in
  let w := save_checkpoint mappings w in
  let w := save_cache w in
  if null mappings then (w, raised "ZeroDivisionError") else
  (set_checkpoint_file w None, sys_exit 0).

End Matching.

End Ext.

(** * Properties stated by the specification *)

(** The outcome the specification prescribes for a company with a known
    override entry. *)
Definition known_outcome (c : Company.t) (k : Known.t) : Mapping.t :=
  Mapping.mk (Company.company_id c) (Company.company_name c) (Company.tsx_code c)
    (Some (Known.goldstock_id k)) (Some (Known.goldstock_name k)) matched
    (Known.confidence_score k) known_mapping.

(** The four-way invariant of an emitted mapping, with the positivity of
    the confidence of an accepted one. *)
Definition unmatched_iff (m : Mapping.t) : Prop :=
  (Mapping.match_status m = unmatched <-> Mapping.goldstock_id m = None) /\
  (Mapping.goldstock_id m = None <-> Mapping.match_method m = none) /\
  (Mapping.match_method m = none <-> Mapping.confidence_score m = 0%Z) /\
  (Mapping.match_status m <> unmatched ->
     Mapping.goldstock_id m <> None /\ Mapping.match_method m <> none /\
     (0 < Mapping.confidence_score m)%Z).

(** The fuzzy tier's outcome for a company, given the score of each
    candidate, the acceptance floor and the threshold of status matched. *)
Definition fuzzy_outcome (floor hi : Z) (score : Goldstock.t -> Z) (gs : list Goldstock.t)
    (c : Company.t) (m : Mapping.t) : Prop :=
  ((forall g, In g gs -> (score g < floor)%Z) ->
     m = Mapping.mk (Company.company_id c) (Company.company_name c) (Company.tsx_code c)
           None None unmatched 0 none) /\
  ((exists g, In g gs /\ (floor <= score g)%Z) ->
     exists g, In g gs /\ (forall g', In g' gs -> (score g' <= score g)%Z) /\
       m = Mapping.mk (Company.company_id c) (Company.company_name c) (Company.tsx_code c)
             (Some (Goldstock.goldstock_id g)) (Some (Goldstock.company_name g))
             (if (hi <=? score g)%Z then matched else manual) (score g) fuzzy_name).

(** The loaders' results the specification expects: a dict, and a
    checkpoint dict with its two lists. *)
Definition returns_dict (r : py_result json) : Prop :=
  exists kvs, r = Ok (JObject kvs).

Definition returns_checkpoint (r : py_result json) : Prop :=
  exists kvs ids ms, r = Ok (JObject kvs) /\
    dict_get String.eqb "processed_ids" kvs = Some (JArray ids) /\
    dict_get String.eqb "mappings" kvs = Some (JArray ms).

(** The words a suffix pattern [\s+<word>(<c>)?$] removes: the word, and
    the word followed by its optional character. *)
Definition suffix_words (suffixes : list (chars * option ascii)) : list chars :=
  flat_map (fun p => match snd p with Some d => [fst p; fst p ++ [d]] | None => [fst p] end)
    suffixes.

(** ** Fetching, indexing and matching, as the properties below see them *)

Definition gs_cache_key (gid : Z) : string := ("goldstock_" ++ py_str_int gid)%string.

Definition strict_page_result (site : Z -> Response) (gid : Z) : option Goldstock.t :=
  match site gid with
  | Page (Some n) t _ =>
      if truthy (Some n)
      then Some (Goldstock.mk (py_str_int gid) n t (Strict.extract_company_aliases n) None)
      else None
  | _ => None
  end.

Definition ext_page_result (site : Z -> Response) (gid : Z) : option Goldstock.t :=
  match site gid with
  | Page (Some n) t e =>
      if truthy (Some n)
      then Some (Goldstock.mk (py_str_int gid) n t (Ext.extract_company_aliases n) e)
      else None
  | _ => None
  end.


(** The parts of the state a fetch leaves alone. *)
Definition same_matching_files (w w' : World) : Prop :=
  checkpoint w' = checkpoint w /\ checkpoint_file w' = checkpoint_file w /\
  output_file w' = output_file w.

(** Lookup indexes as a fold: each company is stored under each of its keys. *)
Definition index_step (kfs : Goldstock.t -> list string) (d : list (string * Goldstock.t))
    (g : Goldstock.t) : list (string * Goldstock.t) :=
  fold_left (fun d k => dict_set String.eqb k g d) (kfs g) d.

Definition strict_ticker_keys (g : Goldstock.t) : list string :=
  if truthy (Goldstock.ticker g) then
    match Strict.normalize_ticker (Goldstock.ticker g) with
    | Some nt => if truthy (Some nt) then [nt] else []
    | None => []
    end
  else [].

Definition ext_ticker_keys (g : Goldstock.t) : list string :=
  if truthy (Goldstock.ticker g) then
    match Ext.normalize_ticker (Goldstock.ticker g) with
    | Some nt => if truthy (Some nt) then [nt] else []
    | None => []
    end
  else [].

Definition name_keys (nn : option string -> string) (g : Goldstock.t) : list string :=
  filter (fun k => truthy (Some k))
    (map (fun s => nn (Some s)) (Goldstock.company_name g :: Goldstock.aliases g)).

Definition links_to (m : Mapping.t) (g : Goldstock.t) : Prop :=
  Mapping.goldstock_id m = Some (Goldstock.goldstock_id g) /\
  Mapping.goldstock_name m = Some (Goldstock.company_name g).

(** What a mapping's [match_method] says about the link it records; [cut]
    is the lowest fuzzy score accepted and [hi] the lowest one marked
    [matched]. *)
Definition link_justified (nt : option string -> option string) (nn : option string -> string)
    (cut hi : Z) (sc : string -> string -> Z) (gs : list Goldstock.t)
    (known : list (Z * Known.t)) (c : Company.t) (m : Mapping.t) : Prop :=
  Mapping.company_id m = Company.company_id c /\
  Mapping.company_name m = Company.company_name c /\
  Mapping.tsx_code m = Company.tsx_code c /\
  match Mapping.match_method m with
  | known_mapping =>
      exists k, dict_get Z.eqb (Company.company_id c) known = Some k /\
        Mapping.goldstock_id m = Some (Known.goldstock_id k) /\
        Mapping.goldstock_name m = Some (Known.goldstock_name k) /\
        Mapping.confidence_score m = Known.confidence_score k /\
        Mapping.match_status m = matched
  | exact_ticker =>
      exists g t, In g gs /\ links_to m g /\ Mapping.confidence_score m = 100%Z /\
        Mapping.match_status m = matched /\
        t <> "" /\ nt (Company.tsx_code c) = Some t /\ nt (Goldstock.ticker g) = Some t
  | exact_name =>
      exists g, In g gs /\ links_to m g /\ Mapping.confidence_score m = 95%Z /\
        Mapping.match_status m = matched /\
        nn (Some (Company.company_name c)) <> "" /\
        In (nn (Some (Company.company_name c)))
           (map (fun s => nn (Some s)) (Goldstock.company_name g :: Goldstock.aliases g))
  | fuzzy_name =>
      exists g, In g gs /\ links_to m g /\
        Mapping.confidence_score m =
          sc (nn (Some (Company.company_name c))) (nn (Some (Goldstock.company_name g))) /\
        (cut <= Mapping.confidence_score m)%Z /\
        Mapping.match_status m =
          (if (hi <=? Mapping.confidence_score m)%Z then matched else manual)
  | none =>
      Mapping.goldstock_id m = None /\ Mapping.goldstock_name m = None /\
      Mapping.confidence_score m = 0%Z /\ Mapping.match_status m = unmatched
  end.

(** The state [perform_matching] leaves: the table and the checkpoint hold
    [ms], the cache, its file and the requests are those of [w]. *)
Definition saved_run (ms : list Mapping.t) (w w' : World) : Prop :=
  output_file w' = Some ms /\
  checkpoint w' = Checkpoint.mk (map Mapping.company_id ms) ms /\
  checkpoint_file w' = Some (Checkpoint.mk (map Mapping.company_id ms) ms) /\
  cache w' = cache w /\ cache_file w' = cache_file w /\ fetch_log w' = fetch_log w.

Definition same_cache (w w' : World) : Prop :=
  cache w' = cache w /\ cache_file w' = cache_file w /\ fetch_log w' = fetch_log w.


(** ** Fixtures and auxiliary predicates *)

Definition w0 : World := mkWorld [] None Checkpoint.empty None None [].

Definition site1 (gid : Z) : Response :=
  if (gid =? 1)%Z then Page404 else Page (Some "Acme Gold Corp") (Some "TSX:ACM") None.

Definition args1 : Args := mkArgs None 2 1 false false.

Definition data1 : option (list Company.t) := Some [Company.mk 10 "Agnico Eagle Mines Ltd" (Some "TSX:AEM")].

Definition sc0 (_ _ : string) : Z := 0.

Definition run1 := Strict.main sc0 args1 data1 site1 w0.

Definition w1fresh := let w := fst run1 in mkWorld [] (cache_file w) Checkpoint.empty (checkpoint_file w) (output_file w) [].

Definition run2 := Strict.main sc0 args1 data1 site1 w1fresh.

Definition run1e := Ext.main sc0 args1 data1 site1 w0.

Definition m10 : Mapping.t := Mapping.mk 10 "Agnico Eagle Mines Ltd" (Some "TSX:AEM") (Some "8") (Some "Agnico Eagle Mines Ltd") matched 100 known_mapping.

Definition ck10 : Checkpoint.t := Checkpoint.mk [10%Z] [m10].

Definition wres : World := mkWorld [] None Checkpoint.empty (Some ck10) (Some [m10]) [].

Definition argsr : Args := mkArgs None 2 1 true false.

Definition c1_company : Company.t := Company.mk 10 "Agnico Eagle Mines Ltd" (Some "TSX:AEM").

Definition c1_rival : Goldstock.t := Goldstock.mk "99" "Agnico Eagle Mines Ltd" (Some "TSX:AEM") [] None.

Definition c1_known : Known.t := Known.mk "8" "Agnico Eagle Mines Ltd" 100.

Definition sc78 (_ _ : string) : Z := 78.

Definition c3_company : Company.t := Company.mk 1 "Probe Gold Inc." None.

Definition c3_gs : list Goldstock.t := [Goldstock.mk "2" "Prob Gold Corp" None [] None].

(** A new process sharing the files of an earlier one: the in-memory
    cache and checkpoint start empty, the fetch log counts its own fetches. *)
Definition restart (w : World) : World :=
  mkWorld [] (cache_file w) Checkpoint.empty (checkpoint_file w) (output_file w) [].

Definition c10_company : Company.t := Company.mk 7 "Decorated Ticker Ltd" (Some "TSX:").

Definition c10_index : list (string * Goldstock.t) := [("", Goldstock.mk "3" "Blank" (Some "") [] None)].

Definition head_not_space (s : chars) : Prop :=
  match s with [] => True | c :: _ => isspace c = false end.

Definition good_name_char (c : ascii) : bool :=
  (is_word c && negb (is_upper c)) || Ascii.eqb c " "%char.

Definition pre_name_char (c : ascii) : bool :=
  (is_word c && negb (is_upper c)) || isspace c.

(** No two spaces in a row. *)
Fixpoint nds (s : chars) : bool :=
  match s with
  | a :: r =>
      match r with
      | b :: _ => negb (Ascii.eqb a " "%char && Ascii.eqb b " "%char)
      | [] => true
      end && nds r
  | [] => true
  end.

Definition head_not_blank (s : chars) : Prop :=
  match s with [] => True | c :: _ => Ascii.eqb c " "%char = false end.

(** Every opening parenthesis of [a] is closed later inside [a]. *)
Definition parens_closed (a : chars) : Prop :=
  forall p q, a = p ++ "("%char :: q -> In ")"%char q.

Definition site_down (_ : Z) : Response := RequestFailed.

Definition gA : Goldstock.t := Goldstock.mk "1" "Acme Gold Corp" (Some "TSX:ACM") [] None.

Definition gB : Goldstock.t := Goldstock.mk "2" "Acme Holdings" (Some "ACM.V") ["Acme"] None.


Definition argsz : Args := mkArgs (Some 0%Z) 2 1 false false.


(** ** Examples *)

Example ex_t1 : Strict.normalize_ticker (Some "CVE:ABC") = Some "ABC". Proof. reflexivity. Qed.
Example ex_t2 : Strict.normalize_ticker (Some "ABC.V") = Some "ABC". Proof. reflexivity. Qed.
Example ex_t3 : Ext.normalize_ticker (Some "tsxv:abc.to") = Some "ABC". Proof. reflexivity. Qed.
Example ex_t4 : Ext.normalize_ticker (Some "TSX:") = Some "". Proof. reflexivity. Qed.
Example ex_t5 : Ext.normalize_ticker (Some "TSX:TSXV:ABC") = Some "TSXV:ABC". Proof. reflexivity. Qed.
Example ex_t6 : Strict.normalize_ticker (Some "A.B.CN") = Some "A.B". Proof. reflexivity. Qed.
Example ex_t7 : Ext.normalize_ticker (Some "ABC.V"%string) = Some "ABC". Proof. reflexivity. Qed.
Example ex_n1 : Strict.normalize_name (Some "Agnico Eagle Mines Ltd") = "agnico eagle". Proof. reflexivity. Qed.
Example ex_n2 : Strict.normalize_name (Some "Acme Inc Gold") = "acme inc". Proof. reflexivity. Qed.
Example ex_n3 : Ext.normalize_name (Some "Probe Gold Inc.") = "probe". Proof. reflexivity. Qed.
Example ex_n4 : Ext.normalize_name (Some "Foo Ventures") = "foo". Proof. reflexivity. Qed.
Example ex_a1 : Ext.extract_company_aliases "Probe Gold (PGX)" = ["Probe Gold (PGX)"; "Probe Gold"; "PGX"; "PG"]. Proof. reflexivity. Qed.
Example ex_a2 : Strict.extract_company_aliases "Probe Gold (PGX)" = ["Probe Gold (PGX)"; "Probe Gold"; "PG("]. Proof. reflexivity. Qed.
Example ex_a3 : Ext.extract_company_aliases "Gold & Silver" = ["Gold & Silver"; "GS"; "Gold and Silver"]. Proof. reflexivity. Qed.
Example ex_a4 : Ext.extract_company_aliases "A (B (C) D)" = ["A (B (C) D)"; "A  D)"; "B (C"; "AD"]. Proof. reflexivity. Qed.

Example r1 : snd run1 = returned /\ cache_file (fst run1) = None. Proof. vm_compute. split; reflexivity. Qed.
Example r2 : fetch_log (fst run2) = [1; 2]%Z. Proof. vm_compute. reflexivity. Qed.
Example r3 : (fst (Ext.main sc0 args1 data1 site1 (let w := fst run1e in mkWorld [] (cache_file w) Checkpoint.empty (checkpoint_file w) (output_file w) []))).(fetch_log) = []. Proof. vm_compute. reflexivity. Qed.
Example r4 : let '(w, e) := Strict.main sc0 argsr data1 site1 wres in (output_file w, e, checkpoint_file w) = (Some [], raised "ZeroDivisionError", Some Checkpoint.empty). Proof. vm_compute. reflexivity. Qed.
Example r5 : let '(w, e) := Ext.main sc0 argsr data1 site1 wres in (output_file w, e) = (Some [m10], sys_exit 0). Proof. vm_compute. reflexivity. Qed.

(** * Proofs *)

(** ** Dicts *)

Lemma dict_get_In {K V} (eqk : K -> K -> bool) (k : K) (d : list (K * V)) (v : V) :
  dict_get eqk k d = Some v -> exists k', In (k', v) d.
Proof.
  induction d as [|[k' v'] d IH]; simpl; [discriminate|].
  destruct (eqk k k'); intros H.
  - injection H as <-. exists k'. now left.
  - destruct (IH H) as [k'' Hin]. exists k''. now right.
Qed.

Lemma dict_get_set_other {V} (k k' : string) (v : V) (d : list (string * V)) :
  k <> k' -> dict_get String.eqb k (dict_set String.eqb k' v d) = dict_get String.eqb k d.
Proof.
  intros Hne. induction d as [|[k0 v0] d IH]; simpl.
  - destruct (String.eqb_spec k k'); congruence.
  - destruct (String.eqb_spec k' k0) as [->|]; simpl.
    + destruct (String.eqb_spec k k0); congruence.
    + destruct (String.eqb k k0); [reflexivity|exact IH].
Qed.

(** ** The matching loops produce one mapping per company, in order *)

Lemma strict_loop_map sc gs known bt bn cs acc w :
  fst (Strict.matching_loop sc gs known bt bn cs acc w) =
  acc ++ map (Strict.match_company sc gs known bt bn) cs.
Proof.
  revert acc w. induction cs as [|c cs IH]; intros acc w; simpl.
  - now rewrite app_nil_r.
  - rewrite IH. now rewrite <- app_assoc.
Qed.

Lemma strict_perform_matching_map sc cs gs known w :
  fst (Strict.perform_matching sc cs gs known w) =
  map (Strict.match_company sc gs known (fst (Strict.build_indexes gs)) (snd (Strict.build_indexes gs))) cs.
Proof.
  unfold Strict.perform_matching.
  destruct (Strict.build_indexes gs) as [bt bn]; simpl.
  pose proof (strict_loop_map sc gs known bt bn cs [] w) as H.
  destruct (Strict.matching_loop sc gs known bt bn cs [] w) as [ms w']; simpl in *.
  exact H.
Qed.

Lemma ext_loop_map sc gs known bt bn i n cs acc w :
  fst (Ext.matching_loop sc gs known bt bn i n cs acc w) =
  acc ++ map (Ext.match_company sc gs known bt bn) cs.
Proof.
  revert i acc w. induction cs as [|c cs IH]; intros i acc w; simpl.
  - now rewrite app_nil_r.
  - rewrite IH. now rewrite <- app_assoc.
Qed.

Lemma ext_perform_matching_map sc cs gs known w :
  gs <> [] ->
  fst (Ext.perform_matching sc cs gs known w) =
  map (Ext.match_company sc gs known (Ext.build_ticker_index gs) (Ext.build_name_index gs)) cs.
Proof.
  intros Hgs. unfold Ext.perform_matching.
  destruct gs as [|g gs]; [congruence|]. cbn [null negb].
  apply ext_loop_map.
Qed.

Lemma ext_perform_matching_nil sc cs known w :
  fst (Ext.perform_matching sc cs [] known w) = [].
Proof. reflexivity. Qed.

(** ** [extractOne] *)

Lemma extract_step_cases sc q cut acc ch :
  extract_step sc q cut acc ch = acc \/
  (extract_step sc q cut acc ch = Some (ch, sc q ch) /\ (cut <= sc q ch)%Z).
Proof.
  unfold extract_step.
  destruct (Z.leb_spec cut (sc q ch)); [|now left].
  destruct acc as [[n s]|]; [|now right].
  destruct (s <? sc q ch)%Z; [now right|now left].
Qed.

Lemma extract_one_fold_cases sc q cs cut acc :
  fold_left (extract_step sc q cut) cs acc = acc \/
  exists n s, fold_left (extract_step sc q cut) cs acc = Some (n, s) /\
              In n cs /\ (cut <= s)%Z /\ s = sc q n.
Proof.
  revert acc. induction cs as [|ch cs IH]; intros acc; simpl; [now left|].
  destruct (extract_step_cases sc q cut acc ch) as [E|[E Hc]]; rewrite E.
  - destruct (IH acc) as [Hf|(n & s & Hf & Hin & Hc & Hs)]; [now left|].
    right. exists n, s. auto.
  - right. destruct (IH (Some (ch, sc q ch))) as [Hf|(n & s & Hf & Hin & Hc' & Hs)].
    + exists ch, (sc q ch). rewrite Hf. auto.
    + exists n, s. auto.
Qed.

Lemma extract_one_some sc q cs cut n s :
  extract_one sc q cs cut = Some (n, s) -> (cut <= s)%Z /\ In n cs /\ s = sc q n.
Proof.
  unfold extract_one. intros H.
  destruct (extract_one_fold_cases sc q cs cut None) as [Hf|(n' & s' & Hf & Hin & Hc & Hs)].
  - rewrite Hf in H. discriminate.
  - rewrite Hf in H. injection H as <- <-. auto.
Qed.

(** ** One company *)

Lemma strict_match_company_known sc gs known bt bn c k :
  dict_get Z.eqb (Company.company_id c) known = Some k ->
  Strict.match_company sc gs known bt bn c = known_outcome c k.
Proof. intros Hk. unfold Strict.match_company. now rewrite Hk. Qed.

Lemma ext_match_company_known sc gs known bt bn c k :
  dict_get Z.eqb (Company.company_id c) known = Some k ->
  Ext.match_company sc gs known bt bn c = known_outcome c k.
Proof. intros Hk. unfold Ext.match_company. rewrite Hk. reflexivity. Qed.

Ltac leb_hyps :=
  repeat match goal with
  | H : (_ <=? _)%Z = true |- _ => apply Z.leb_le in H
  | H : (_ <=? _)%Z = false |- _ => apply Z.leb_gt in H
  end.

Ltac solve_outcome :=
  unfold unmatched_iff; simpl; leb_hyps;
  repeat split; intros; try discriminate; try congruence; try lia.

Lemma known_outcome_ok c k :
  (0 < Known.confidence_score k)%Z -> unmatched_iff (known_outcome c k).
Proof. intros Hp. solve_outcome. Qed.

Lemma strict_match_company_ok sc gs known bt bn c :
  (forall id k, In (id, k) known -> (0 < Known.confidence_score k)%Z) ->
  unmatched_iff (Strict.match_company sc gs known bt bn c).
Proof.
  intros Hpos.
  destruct (dict_get Z.eqb (Company.company_id c) known) as [k|] eqn:Hk.
  { rewrite (strict_match_company_known _ _ _ _ _ _ _ Hk).
    apply known_outcome_ok. destruct (dict_get_In _ _ _ _ Hk) as [id Hin]. eauto. }
  unfold Strict.match_company. rewrite Hk. cbv zeta.
  repeat match goal with
  | |- context [match ?x with _ => _ end] => destruct x eqn:?
  end; solve_outcome.
Qed.

Lemma ext_match_company_ok sc gs known bt bn c :
  (forall id k, In (id, k) known -> (0 < Known.confidence_score k)%Z) ->
  unmatched_iff (Ext.match_company sc gs known bt bn c).
Proof.
  intros Hpos.
  destruct (dict_get Z.eqb (Company.company_id c) known) as [k|] eqn:Hk.
  { rewrite (ext_match_company_known _ _ _ _ _ _ _ Hk).
    apply known_outcome_ok. destruct (dict_get_In _ _ _ _ Hk) as [id Hin]. eauto. }
  unfold Ext.match_company. rewrite Hk. cbv zeta.
  repeat match goal with
  | |- context [match ?x with _ => _ end] => destruct x eqn:?
  end;
  repeat match goal with
  | H : extract_one _ _ _ _ = Some (_, _) |- _ => apply extract_one_some in H; destruct H as [? _]
  end; solve_outcome.
Qed.

(** ** C1 *)

(** C1: for a company whose id has a known override entry, the mapping
    either variant's [perform_matching] emits for it is the override entry's
    mapping (status matched, method known_mapping, id, name and confidence
    from the entry), whatever the other tiers would have found. *)
Theorem known_mapping_precedence sc companies gs known w i c k m :
  nth_error companies i = Some c ->
  dict_get Z.eqb (Company.company_id c) known = Some k ->
  nth_error (fst (Strict.perform_matching sc companies gs known w)) i = Some m \/
  nth_error (fst (Ext.perform_matching sc companies gs known w)) i = Some m ->
  m = known_outcome c k.
Proof.
  intros Hc Hk [Hm|Hm].
  - rewrite strict_perform_matching_map, nth_error_map, Hc in Hm.
    injection Hm as <-. now apply strict_match_company_known.
  - destruct gs as [|g gs'].
    + rewrite ext_perform_matching_nil in Hm. now destruct i.
    + rewrite ext_perform_matching_map in Hm by discriminate.
      rewrite nth_error_map, Hc in Hm.
      injection Hm as <-. now apply ext_match_company_known.
Qed.

Lemma known_mapping_precedence_witness :
  nth_error [c1_company] 0 = Some c1_company /\
  dict_get Z.eqb (Company.company_id c1_company) known_mappings = Some c1_known /\
  nth_error (fst (Ext.perform_matching sc0 [c1_company] [c1_rival] known_mappings w0)) 0 =
    Some (known_outcome c1_company c1_known) /\
  known_outcome c1_company c1_known = known_outcome c1_company c1_known.
Proof.
  assert (H1 : nth_error [c1_company] 0 = Some c1_company) by reflexivity.
  assert (H2 : dict_get Z.eqb (Company.company_id c1_company) known_mappings = Some c1_known)
    by reflexivity.
  assert (H3 : nth_error (fst (Ext.perform_matching sc0 [c1_company] [c1_rival] known_mappings w0)) 0 =
    Some (known_outcome c1_company c1_known)) by (vm_compute; reflexivity).
  exact (conj H1 (conj H2 (conj H3
    (known_mapping_precedence sc0 [c1_company] [c1_rival] known_mappings w0 0 c1_company c1_known
       (known_outcome c1_company c1_known) H1 H2 (or_intror H3))))).
Defined.

(** ** C2 *)

(** C2: when every confidence of the override table is positive, every
    mapping either variant's [perform_matching] emits satisfies: status is
    unmatched iff goldstock_id is None iff the method is none iff the
    confidence is 0; a matched or manual mapping has a goldstock_id, a method
    other than none and a positive confidence. *)
Theorem mapping_status_invariant sc companies gs known w m :
  (forall id k, In (id, k) known -> (0 < Known.confidence_score k)%Z) ->
  In m (fst (Strict.perform_matching sc companies gs known w)) \/
  In m (fst (Ext.perform_matching sc companies gs known w)) ->
  unmatched_iff m.
Proof.
  intros Hpos [Hm|Hm].
  - rewrite strict_perform_matching_map in Hm.
    apply in_map_iff in Hm as (c & <- & _). now apply strict_match_company_ok.
  - destruct gs as [|g gs'].
    + rewrite ext_perform_matching_nil in Hm. destruct Hm.
    + rewrite ext_perform_matching_map in Hm by discriminate.
      apply in_map_iff in Hm as (c & <- & _). now apply ext_match_company_ok.
Qed.

Lemma mapping_status_invariant_witness :
  (forall id k, In (id, k) known_mappings -> (0 < Known.confidence_score k)%Z) /\
  unmatched_iff (known_outcome c1_company c1_known).
Proof.
  assert (Hpos : forall id k, In (id, k) known_mappings -> (0 < Known.confidence_score k)%Z).
  { intros id k Hin. simpl in Hin.
    repeat (destruct Hin as [Hin|Hin]; [injection Hin as <- <-; simpl; lia|]). destruct Hin. }
  split; [exact Hpos|].
  apply (mapping_status_invariant sc0 [c1_company] [c1_rival] known_mappings w0); [exact Hpos|].
  right. vm_compute. left. reflexivity.
Defined.

(** ** The fuzzy tier *)

Lemma extract_one_fold_none sc q cs cut acc :
  fold_left (extract_step sc q cut) cs acc = None ->
  acc = None /\ forall ch, In ch cs -> (sc q ch < cut)%Z.
Proof.
  revert acc. induction cs as [|ch cs IH]; intros acc H; simpl in *.
  - split; [exact H|tauto].
  - destruct (IH _ H) as [Hacc Hall].
    unfold extract_step in Hacc.
    destruct (Z.leb_spec cut (sc q ch)).
    + destruct acc as [[n0 s0]|]; [destruct (Z.ltb s0 (sc q ch))|]; discriminate.
    + split; [exact Hacc|]. intros ch' [<-|Hin]; auto.
Qed.

Lemma extract_one_fold_max sc q cs cut acc n s :
  fold_left (extract_step sc q cut) cs acc = Some (n, s) ->
  (forall ch, In ch cs -> (cut <= sc q ch)%Z -> (sc q ch <= s)%Z) /\
  (forall n0 s0, acc = Some (n0, s0) -> (s0 <= s)%Z).
Proof.
  revert acc. induction cs as [|ch cs IH]; intros acc H; simpl in *.
  - split; [tauto|]. intros n0 s0 ->. injection H as _ <-. lia.
  - destruct (IH _ H) as [Hall Hacc].
    assert (Hstep : ((cut <= sc q ch)%Z -> exists n1 s1, extract_step sc q cut acc ch = Some (n1, s1) /\ (sc q ch <= s1)%Z) /\
                    (forall n0 s0, acc = Some (n0, s0) ->
                       exists n1 s1, extract_step sc q cut acc ch = Some (n1, s1) /\ (s0 <= s1)%Z)).
    { unfold extract_step. split.
      - intros Hc. apply Z.leb_le in Hc. rewrite Hc.
        destruct acc as [[n0 s0]|].
        + destruct (Z.ltb_spec s0 (sc q ch)).
          * exists ch, (sc q ch). split; [reflexivity|lia].
          * exists n0, s0. split; [reflexivity|lia].
        + exists ch, (sc q ch). split; [reflexivity|lia].
      - intros n0 s0 ->.
        destruct (cut <=? sc q ch)%Z.
        + destruct (Z.ltb_spec s0 (sc q ch)).
          * exists ch, (sc q ch). split; [reflexivity|lia].
          * exists n0, s0. split; [reflexivity|lia].
        + exists n0, s0. split; [reflexivity|lia]. }
    destruct Hstep as [Hs1 Hs2]. split.
    + intros ch' [<-|Hin] Hc.
      * destruct (Hs1 Hc) as (n1 & s1 & E & Hle). specialize (Hacc _ _ E). lia.
      * now apply Hall.
    + intros n0 s0 E. destruct (Hs2 _ _ E) as (n1 & s1 & E1 & Hle).
      specialize (Hacc _ _ E1). lia.
Qed.

Lemma extract_one_none sc q cs cut :
  extract_one sc q cs cut = None -> forall ch, In ch cs -> (sc q ch < cut)%Z.
Proof. intros H. exact (proj2 (extract_one_fold_none _ _ _ _ _ H)). Qed.

Lemma extract_one_max sc q cs cut n s :
  extract_one sc q cs cut = Some (n, s) -> forall ch, In ch cs -> (sc q ch <= s)%Z.
Proof.
  intros H ch Hin.
  destruct (extract_one_some _ _ _ _ _ _ H) as (Hc & _ & _).
  destruct (extract_one_fold_max _ _ _ _ _ _ _ H) as [Hall _].
  destruct (Z.leb_spec cut (sc q ch)); [now apply Hall|lia].
Qed.

(** [all_gs_names[normalized_gs_names.index(name)]]: the first candidate
    whose normalized name is the chosen one. *)
Lemma find_normalized (nn : option string -> string) (gs : list Goldstock.t) n :
  In n (map (fun p => nn (Some (fst p))) (map (fun g => (Goldstock.company_name g, g)) gs)) ->
  exists g, find (fun p => String.eqb (nn (Some (fst p))) n)
              (map (fun g => (Goldstock.company_name g, g)) gs) = Some (Goldstock.company_name g, g) /\
            In g gs /\ nn (Some (Goldstock.company_name g)) = n.
Proof.
  induction gs as [|g gs IH]; simpl; [tauto|].
  destruct (String.eqb_spec (nn (Some (Goldstock.company_name g))) n) as [E|Ne].
  - intros _. exists g. auto.
  - intros [E|Hin]; [contradiction|].
    destruct (IH Hin) as (g' & F & Hg' & E). exists g'. auto.
Qed.

Lemma normalized_choices (nn : option string -> string) (gs : list Goldstock.t) g :
  In g gs ->
  In (nn (Some (Goldstock.company_name g)))
     (map (fun p => nn (Some (fst p))) (map (fun g => (Goldstock.company_name g, g)) gs)).
Proof.
  intros Hg. rewrite map_map. apply in_map_iff. exists g. auto.
Qed.

Lemma truthy_some_nonempty t : truthy (Some t) = true <-> t <> "".
Proof. destruct t; simpl; split; congruence. Qed.

Lemma strict_fuzzy_tier sc gs known bt bn c :
  dict_get Z.eqb (Company.company_id c) known = None ->
  (forall t, Strict.normalize_ticker (Company.tsx_code c) = Some t -> t <> "" ->
             dict_get String.eqb t bt = None) ->
  dict_get String.eqb (Strict.normalize_name (Some (Company.company_name c))) bn = None ->
  Strict.normalize_name (Some (Company.company_name c)) <> "" -> gs <> [] ->
  fuzzy_outcome 80 90
    (fun g => sc (Strict.normalize_name (Some (Company.company_name c)))
                 (Strict.normalize_name (Some (Goldstock.company_name g)))) gs c
    (Strict.match_company sc gs known bt bn c).
Proof.
  intros Hk Ht Hn Hq Hgs.
  unfold Strict.match_company. rewrite Hk. cbv zeta.
  assert (HT : (if truthy (Company.tsx_code c) then
                  match Strict.normalize_ticker (Company.tsx_code c) with
                  | Some nt => if truthy (Some nt) then dict_get String.eqb nt bt else None
                  | None => None
                  end else None) = None).
  { destruct (truthy (Company.tsx_code c)); [|reflexivity].
    destruct (Strict.normalize_ticker (Company.tsx_code c)) as [t|] eqn:E; [|reflexivity].
    destruct (truthy (Some t)) eqn:Tt; [|reflexivity].
    apply Ht; [reflexivity|]. now apply truthy_some_nonempty. }
  rewrite HT, Hn. clear HT.
  set (q := Strict.normalize_name (Some (Company.company_name c))) in *.
  assert (Hq' : truthy (Some q) = true) by now apply truthy_some_nonempty.
  rewrite Hq'.
  replace (null (map (fun g => (Goldstock.company_name g, g)) gs)) with false
    by (destruct gs; [congruence|reflexivity]).
  cbn [negb andb].
  destruct (extract_one sc q _ 0) as [[n s]|] eqn:He.
  - destruct (extract_one_some _ _ _ _ _ _ He) as (Hc & Hin & Hs).
    pose proof (extract_one_max _ _ _ _ _ _ He) as Hmax.
    destruct (find_normalized Strict.normalize_name gs n Hin) as (g & F & Hg & Eg).
    rewrite F.
    assert (Hsg : sc q (Strict.normalize_name (Some (Goldstock.company_name g))) = s) by now rewrite Eg.
    assert (Hall : forall g', In g' gs ->
              (sc q (Strict.normalize_name (Some (Goldstock.company_name g'))) <= s)%Z).
    { intros g' Hg'. apply Hmax. now apply normalized_choices. }
    destruct (Z.leb_spec 80 s) as [Hle|Hlt].
    + split.
      * intros Hlow. specialize (Hlow g Hg). simpl in Hlow. lia.
      * intros _. exists g. split; [exact Hg|]. split.
        -- intros g' Hg'. simpl. rewrite Hsg. now apply Hall.
        -- simpl. rewrite Hsg. unfold Strict.mk_mapping.
           destruct (Z.leb_spec 80 s); [reflexivity|lia].
    + split.
      * intros _. reflexivity.
      * intros (g' & Hg' & Hge). specialize (Hall g' Hg'). simpl in Hge. lia.
  - pose proof (extract_one_none _ _ _ _ He) as Hall.
    split.
    + intros _. reflexivity.
    + intros (g' & Hg' & Hge). simpl in Hge.
      specialize (Hall _ (normalized_choices Strict.normalize_name gs g' Hg')). lia.
Qed.

Lemma ext_fuzzy_tier sc gs known bt bn c :
  dict_get Z.eqb (Company.company_id c) known = None ->
  (forall t, Ext.normalize_ticker (Company.tsx_code c) = Some t -> t <> "" ->
             dict_get String.eqb t bt = None) ->
  dict_get String.eqb (Ext.normalize_name (Some (Company.company_name c))) bn = None ->
  Ext.normalize_name (Some (Company.company_name c)) <> "" -> gs <> [] ->
  fuzzy_outcome 70 85
    (fun g => sc (Ext.normalize_name (Some (Company.company_name c)))
                 (Ext.normalize_name (Some (Goldstock.company_name g)))) gs c
    (Ext.match_company sc gs known bt bn c).
Proof.
  intros Hk Ht Hn Hq Hgs.
  unfold Ext.match_company. rewrite Hk. cbv zeta.
  destruct (Ext.normalize_ticker (Company.tsx_code c)) as [t|] eqn:Et;
    [destruct (truthy (Some t)) eqn:Tt;
       [rewrite (Ht t eq_refl) by now apply truthy_some_nonempty|]|].
  all: rewrite Hn.
  all: set (q := Ext.normalize_name (Some (Company.company_name c))) in *.
  all: assert (Hq' : truthy (Some q) = true) by now apply truthy_some_nonempty.
  all: rewrite Hq'; cbn [truthy isSome negb andb Ext.l_match].
  all: destruct (extract_one sc q _ 70) as [[n s]|] eqn:He.
  all: try (pose proof (extract_one_none _ _ _ _ He) as Hall; split;
            [intros _; reflexivity
            |intros (g' & Hg' & Hge); simpl in Hge;
             specialize (Hall _ (normalized_choices Ext.normalize_name gs g' Hg')); lia]).
  all: destruct (extract_one_some _ _ _ _ _ _ He) as (Hc & Hin & Hs);
       pose proof (extract_one_max _ _ _ _ _ _ He) as Hmax;
       destruct (find_normalized Ext.normalize_name gs n Hin) as (g & F & Hg & Eg);
       rewrite F; cbn [Ext.found Ext.l_goldstock_id Ext.l_goldstock_name Ext.l_status
                       Ext.l_confidence Ext.l_match_method];
       assert (Hsg : sc q (Ext.normalize_name (Some (Goldstock.company_name g))) = s) by (rewrite Eg; symmetry; exact Hs);
       (split;
        [intros Hlow; specialize (Hlow g Hg); simpl in Hlow; lia
        |intros _; exists g; split; [exact Hg|]; split;
         [intros g' Hg'; simpl; rewrite Hsg; apply Hmax; now apply normalized_choices
         |simpl; rewrite Hsg; reflexivity]]).
Qed.

(** ** C3 *)

(** C3: for a company that reaches the fuzzy tier (no override entry, no
    exact-ticker hit, no exact-name hit) with a non-empty normalized name and
    a non-empty list of candidates, the mapping emitted by [perform_matching]
    is: unmatched with confidence 0 when every candidate scores below the
    floor (80 strict, 70 extended); otherwise the best-scoring candidate,
    method fuzzy_name, confidence its score, status matched from 90 (strict)
    or 85 (extended) on and manual below. *)
Theorem fuzzy_tier_acceptance :
  (forall sc companies gs known w i c m,
     nth_error companies i = Some c ->
     dict_get Z.eqb (Company.company_id c) known = None ->
     (forall t, Strict.normalize_ticker (Company.tsx_code c) = Some t -> t <> "" ->
                dict_get String.eqb t (fst (Strict.build_indexes gs)) = None) ->
     dict_get String.eqb (Strict.normalize_name (Some (Company.company_name c)))
       (snd (Strict.build_indexes gs)) = None ->
     Strict.normalize_name (Some (Company.company_name c)) <> "" -> gs <> [] ->
     nth_error (fst (Strict.perform_matching sc companies gs known w)) i = Some m ->
     fuzzy_outcome 80 90
       (fun g => sc (Strict.normalize_name (Some (Company.company_name c)))
                    (Strict.normalize_name (Some (Goldstock.company_name g)))) gs c m) /\
  (forall sc companies gs known w i c m,
     nth_error companies i = Some c ->
     dict_get Z.eqb (Company.company_id c) known = None ->
     (forall t, Ext.normalize_ticker (Company.tsx_code c) = Some t -> t <> "" ->
                dict_get String.eqb t (Ext.build_ticker_index gs) = None) ->
     dict_get String.eqb (Ext.normalize_name (Some (Company.company_name c)))
       (Ext.build_name_index gs) = None ->
     Ext.normalize_name (Some (Company.company_name c)) <> "" -> gs <> [] ->
     nth_error (fst (Ext.perform_matching sc companies gs known w)) i = Some m ->
     fuzzy_outcome 70 85
       (fun g => sc (Ext.normalize_name (Some (Company.company_name c)))
                    (Ext.normalize_name (Some (Goldstock.company_name g)))) gs c m).
Proof.
  split.
  - intros sc companies gs known w i c m Hc Hk Ht Hn Hq Hgs Hm.
    rewrite strict_perform_matching_map, nth_error_map, Hc in Hm.
    injection Hm as <-. now apply strict_fuzzy_tier.
  - intros sc companies gs known w i c m Hc Hk Ht Hn Hq Hgs Hm.
    rewrite ext_perform_matching_map, nth_error_map, Hc in Hm by exact Hgs.
    injection Hm as <-. now apply ext_fuzzy_tier.
Qed.

(** The specification's example: a score of 78 is unmatched under the
    strict floor and manual under the extended one. *)
Lemma fuzzy_tier_acceptance_witness :
  fuzzy_outcome 80 90 (fun _ => 78%Z) c3_gs c3_company
    (Mapping.mk 1 "Probe Gold Inc." None None None unmatched 0 none) /\
  fuzzy_outcome 70 85 (fun _ => 78%Z) c3_gs c3_company
    (Mapping.mk 1 "Probe Gold Inc." None (Some "2") (Some "Prob Gold Corp") manual 78 fuzzy_name).
Proof.
  split.
  - apply (proj1 fuzzy_tier_acceptance sc78 [c3_company] c3_gs [] w0 0 c3_company);
      solve [reflexivity | discriminate | intros t Ht; discriminate Ht | vm_compute; reflexivity].
  - apply (proj2 fuzzy_tier_acceptance sc78 [c3_company] c3_gs [] w0 0 c3_company);
      solve [reflexivity | discriminate | intros t Ht; discriminate Ht | vm_compute; reflexivity].
Defined.

(** ** C6 *)

(** C6 (mapping_script.py): two runs with [--max-id 2 --workers 1] share
    the cache file; id 1 answers 404, id 2 a company page.  The first run
    records id 1 as a null entry and completes, but never writes the cache
    file, so the second run fetches id 1 (and id 2) again.  The same two
    runs of mapping_script2.py, which saves the cache at the end of [main],
    fetch nothing the second time. *)
Theorem strict_refetches_confirmed_absence sc :
  let w1 := fst (Strict.main sc args1 data1 site1 w0) in
  snd (Strict.main sc args1 data1 site1 w0) = returned /\
  dict_get String.eqb "goldstock_1" (cache w1) = Some None /\
  cache_file w1 = None /\
  fetch_log (fst (Strict.main sc args1 data1 site1 (restart w1))) = [1; 2]%Z /\
  fetch_log (fst (Ext.main sc args1 data1 site1
                    (restart (fst (Ext.main sc args1 data1 site1 w0))))) = [].
Proof. vm_compute. repeat split; reflexivity. Qed.

(** ** C8 *)

(** C8, counterexample: a cache file holding the JSON array [[]] loads as
    that array, not as a dict; a checkpoint file holding [{}] loads as that
    object, which has neither list. *)
Lemma loaded_state_wrong_shape :
  ~ returns_dict (Strict.load_cache (Holds (JArray []))) /\
  ~ returns_dict (Ext.load_cache (Holds (JArray []))) /\
  ~ returns_checkpoint (Strict.load_checkpoint (Holds (JObject []))) /\
  ~ returns_checkpoint (Ext.load_checkpoint (Holds (JObject []))).
Proof.
  unfold returns_dict, returns_checkpoint.
  repeat split.
  - intros [kvs H]. discriminate H.
  - intros [kvs H]. discriminate H.
  - intros (kvs & ids & ms & H & Hp & _). injection H as <-. discriminate Hp.
  - intros (kvs & ids & ms & H & Hp & _). injection H as <-. discriminate Hp.
Qed.

(** C8 (amended): loading never raises in either script.  A file that
    parses yields the parsed value unchanged, whatever its shape; an absent,
    unreadable, undecodable or malformed file yields [{}] for the cache and
    the empty checkpoint for the checkpoint. *)
Theorem loaders_never_raise (f : file_content) :
  Strict.load_cache f = Ok (match f with Holds v => v | _ => JObject [] end) /\
  Ext.load_cache f = Ok (match f with Holds v => v | _ => JObject [] end) /\
  Strict.load_checkpoint f = Ok (match f with Holds v => v | _ => empty_checkpoint_json end) /\
  Ext.load_checkpoint f = Ok (match f with Holds v => v | _ => empty_checkpoint_json end).
Proof. destruct f; repeat split. Qed.

(** ** C9 *)

(** C9 (mapping_script.py): a [--resume] run whose checkpoint already lists
    every company.  No company is left to match, yet [perform_matching]
    ends with [save_checkpoint([])], which empties the checkpoint object
    [main] reads the earlier mappings from: the table is rewritten empty, the
    checkpoint file is left empty, and the summary divides by zero.
    mapping_script2.py, given the same run, writes back the checkpoint's
    mapping and exits 0. *)
Theorem strict_resume_drops_checkpoint sc :
  let '(w, e) := Strict.main sc argsr data1 site1 wres in
  Checkpoint.processed_ids ck10 = map Company.company_id (Strict.load_companies None data1) /\
  output_file w = Some [] /\ e = raised "ZeroDivisionError" /\
  checkpoint_file w = Some Checkpoint.empty /\
  let '(w', e') := Ext.main sc argsr data1 site1 wres in
  output_file w' = Some (Checkpoint.mappings ck10) /\ e' = sys_exit 0.
Proof. vm_compute. repeat split; reflexivity. Qed.

(** ** C10 *)

Lemma strict_ticker_index_no_empty gs :
  dict_get String.eqb "" (fst (Strict.build_indexes gs)) = None.
Proof.
  unfold Strict.build_indexes.
  assert (H : forall gs acc, dict_get String.eqb "" (fst acc) = None ->
    dict_get String.eqb "" (fst (fold_left
      (fun '(by_ticker, by_name) gs =>
         let by_ticker :=
           if truthy (Goldstock.ticker gs) then
             match Strict.normalize_ticker (Goldstock.ticker gs) with
             | Some nt => if truthy (Some nt) then dict_set String.eqb nt gs by_ticker else by_ticker
             | None => by_ticker
             end
           else by_ticker in
         let normalized := Strict.normalize_name (Some (Goldstock.company_name gs)) in
         let by_name :=
           if truthy (Some normalized) then dict_set String.eqb normalized gs by_name else by_name in
         let by_name :=
           fold_left
             (fun d alias =>
                let normalized_alias := Strict.normalize_name (Some alias) in
                if truthy (Some normalized_alias) then dict_set String.eqb normalized_alias gs d else d)
             (Goldstock.aliases gs) by_name in
         (by_ticker, by_name)) gs acc)) = None).
  { clear gs. induction gs as [|g gs IH]; intros [bt bn] Hacc; [exact Hacc|].
    cbn [fold_left]. apply IH. cbn [fst] in *.
    destruct (truthy (Goldstock.ticker g)); [|exact Hacc].
    destruct (Strict.normalize_ticker (Goldstock.ticker g)) as [t|]; [|exact Hacc].
    destruct (truthy (Some t)) eqn:Tt; [|exact Hacc].
    rewrite dict_get_set_other; [exact Hacc|].
    apply truthy_some_nonempty in Tt. congruence. }
  apply H. reflexivity.
Qed.

Lemma ext_ticker_index_no_empty gs :
  dict_get String.eqb "" (Ext.build_ticker_index gs) = None.
Proof.
  unfold Ext.build_ticker_index.
  generalize (@eq_refl _ (@None Goldstock.t)).
  change (None = None) with (dict_get String.eqb "" ([] : list (string * Goldstock.t)) = None).
  generalize ([] : list (string * Goldstock.t)).
  induction gs as [|g gs IH]; intros d Hd; [exact Hd|].
  cbn [fold_left]. apply IH.
  destruct (truthy (Goldstock.ticker g)); [|exact Hd].
  destruct (Ext.normalize_ticker (Goldstock.ticker g)) as [t|]; [|exact Hd].
  destruct (truthy (Some t)) eqn:Tt; [|exact Hd].
  rewrite dict_get_set_other; [exact Hd|].
  apply truthy_some_nonempty in Tt. congruence.
Qed.

Lemma strict_empty_ticker_no_exact sc gs known bt bn c :
  Strict.normalize_ticker (Company.tsx_code c) = Some "" ->
  Mapping.match_method (Strict.match_company sc gs known bt bn c) <> exact_ticker.
Proof.
  intros Ht. unfold Strict.match_company. rewrite Ht. cbv zeta.
  destruct (truthy (Company.tsx_code c)); cbn [truthy].
  all: repeat match goal with
       | |- context [match ?x with _ => _ end] => destruct x eqn:?
       end; simpl; discriminate.
Qed.

Lemma ext_empty_ticker_no_exact sc gs known bt bn c :
  Ext.normalize_ticker (Company.tsx_code c) = Some "" ->
  Mapping.match_method (Ext.match_company sc gs known bt bn c) <> exact_ticker.
Proof.
  intros Ht. unfold Ext.match_company. rewrite Ht. cbv zeta. cbn [truthy].
  rewrite andb_false_r.
  repeat match goal with
  | |- context [match ?x with _ => _ end] => destruct x eqn:?
  end; simpl; discriminate.
Qed.

(** C10: a ticker made only of exchange decoration, ["TSX:"], normalizes
    to the empty string (not [None]) in both scripts; no ticker index built
    by either script has the empty key; and a company whose ticker
    normalizes to the empty string is never matched by the exact-ticker tier,
    whatever the indexes. *)
Theorem empty_ticker_never_matches :
  (Strict.normalize_ticker (Some "TSX:") = Some "" /\
   Ext.normalize_ticker (Some "TSX:") = Some "") /\
  (forall gs, dict_get String.eqb "" (fst (Strict.build_indexes gs)) = None /\
              dict_get String.eqb "" (Ext.build_ticker_index gs) = None) /\
  (forall sc gs known bt bn c,
     Strict.normalize_ticker (Company.tsx_code c) = Some "" ->
     Mapping.match_method (Strict.match_company sc gs known bt bn c) <> exact_ticker) /\
  (forall sc gs known bt bn c,
     Ext.normalize_ticker (Company.tsx_code c) = Some "" ->
     Mapping.match_method (Ext.match_company sc gs known bt bn c) <> exact_ticker).
Proof.
  split; [split; reflexivity|].
  split; [intros gs; split; [apply strict_ticker_index_no_empty|apply ext_ticker_index_no_empty]|].
  split; [apply strict_empty_ticker_no_exact|apply ext_empty_ticker_no_exact].
Qed.

(** Even an index holding the empty key yields no exact-ticker match. *)
Lemma empty_ticker_never_matches_witness :
  Strict.normalize_ticker (Company.tsx_code c10_company) = Some "" /\
  Mapping.match_method (Strict.match_company sc0 [] [] c10_index [] c10_company) <> exact_ticker /\
  Ext.normalize_ticker (Company.tsx_code c10_company) = Some "" /\
  Mapping.match_method (Ext.match_company sc0 [] [] c10_index [] c10_company) <> exact_ticker.
Proof.
  assert (H1 : Strict.normalize_ticker (Company.tsx_code c10_company) = Some "") by reflexivity.
  assert (H2 : Ext.normalize_ticker (Company.tsx_code c10_company) = Some "") by reflexivity.
  destruct empty_ticker_never_matches as (_ & _ & Hs & He).
  exact (conj H1 (conj (Hs sc0 [] [] c10_index [] c10_company H1)
                   (conj H2 (He sc0 [] [] c10_index [] c10_company H2)))).
Defined.

(** ** Characters through their codes *)

Lemma code_lt_256 c : (code c < 256)%nat.
Proof. apply nat_ascii_bounded. Qed.

Lemma code_inj a b : code a = code b -> a = b.
Proof.
  intros H. rewrite <- (ascii_nat_embedding a), <- (ascii_nat_embedding b).
  unfold code in H. now rewrite H.
Qed.

Lemma ascii_eqb_code a b : Ascii.eqb a b = Nat.eqb (code a) (code b).
Proof.
  destruct (Ascii.eqb_spec a b) as [->|Hne].
  - symmetry. apply Nat.eqb_refl.
  - symmetry. apply Nat.eqb_neq. intros H. apply Hne. now apply code_inj.
Qed.

Lemma code_upper c :
  code (upper_char c) = if is_lower c then (code c - 32)%nat else code c.
Proof.
  unfold upper_char. destruct (is_lower c) eqn:E; [|reflexivity].
  unfold code. apply nat_ascii_embedding. pose proof (code_lt_256 c). unfold code in *. lia.
Qed.

Lemma code_lower c :
  code (lower_char c) = if is_upper c then (code c + 32)%nat else code c.
Proof.
  unfold lower_char. destruct (is_upper c) eqn:E; [|reflexivity].
  unfold code. apply nat_ascii_embedding. unfold is_upper, code in E.
  apply andb_true_iff in E as [_ E]. apply Nat.leb_le in E. lia.
Qed.

Ltac code_crush :=
  intros; unfold is_word in *; unfold isalpha in *;
  unfold isspace, is_lower, is_upper, is_digit, isalpha, is_word, is_ticker_punct in *;
  repeat rewrite ascii_eqb_code in *;
  repeat rewrite code_upper in *; repeat rewrite code_lower in *;
  unfold is_lower, is_upper in *;
  cbn [code nat_of_ascii N_of_ascii N_of_digits N.add N.mul Pos.add Pos.mul N.to_nat Pos.to_nat
       Pos.iter_op Nat.add andb orb negb] in *;
  repeat match goal with
  | |- context [Nat.leb ?a ?b] => destruct (Nat.leb_spec a b)
  | H : context [Nat.leb ?a ?b] |- _ => destruct (Nat.leb_spec a b)
  | |- context [Nat.eqb ?a ?b] => destruct (Nat.eqb_spec a b)
  | H : context [Nat.eqb ?a ?b] |- _ => destruct (Nat.eqb_spec a b)
  end; simpl in *; try discriminate; try lia; auto.

Lemma upper_not_lower c : is_lower (upper_char c) = false.
Proof. code_crush. Qed.

Lemma isspace_upper c : isspace (upper_char c) = isspace c.
Proof. code_crush. Qed.

Lemma punct_upper c : is_ticker_punct (upper_char c) = is_ticker_punct c.
Proof. code_crush. Qed.

Lemma upper_nonlower c : is_lower c = false -> upper_char c = c.
Proof. unfold upper_char. now intros ->. Qed.

(** ** [str.strip] *)

Lemma drop_ws_split s :
  exists l1, s = l1 ++ drop_ws s /\ Forall (fun c => isspace c = true) l1 /\
             head_not_space (drop_ws s).
Proof.
  induction s as [|c s IH]; simpl.
  - exists []. simpl. auto.
  - destruct (isspace c) eqn:E.
    + destruct IH as (l1 & H1 & H2 & H3). exists (c :: l1). simpl. rewrite <- H1. auto.
    + exists []. simpl. auto.
Qed.

Lemma drop_ws_head s : head_not_space s -> drop_ws s = s.
Proof. destruct s as [|c s]; simpl; [reflexivity|]. now intros ->. Qed.

Lemma drop_ws_idem s : drop_ws (drop_ws s) = drop_ws s.
Proof. apply drop_ws_head. destruct (drop_ws_split s) as (? & _ & _ & H). exact H. Qed.

(** [strip] keeps an infix: [s = l1 ++ strip s ++ l2]. *)
Lemma py_strip_infix s : exists l1 l2, s = l1 ++ py_strip s ++ l2.
Proof.
  unfold py_strip.
  destruct (drop_ws_split s) as (l1 & H1 & _ & _).
  destruct (drop_ws_split (rev (drop_ws s))) as (l2 & H2 & _ & _).
  exists l1, (rev l2).
  rewrite H1 at 1. f_equal.
  transitivity (rev (rev (drop_ws s))); [symmetry; apply rev_involutive|].
  rewrite H2 at 1. now rewrite rev_app_distr.
Qed.

Lemma py_strip_head s : head_not_space (py_strip s).
Proof.
  unfold py_strip.
  destruct (drop_ws_split s) as (l1 & _ & _ & Hh).
  destruct (drop_ws_split (rev (drop_ws s))) as (l2 & H2 & _ & _).
  remember (drop_ws s) as u.
  assert (Hu : u = rev (drop_ws (rev u)) ++ rev l2).
  { transitivity (rev (rev u)); [symmetry; apply rev_involutive|].
    rewrite H2 at 1. now rewrite rev_app_distr. }
  destruct (rev (drop_ws (rev u))) as [|c r]; simpl; [exact I|].
  rewrite Hu in Hh. exact Hh.
Qed.

Lemma py_strip_idem s : py_strip (py_strip s) = py_strip s.
Proof.
  pose proof (py_strip_head s) as Hh.
  unfold py_strip at 1. rewrite (drop_ws_head _ Hh).
  unfold py_strip. rewrite rev_involutive, drop_ws_idem. reflexivity.
Qed.

Lemma drop_ws_map_upper s : drop_ws (py_upper s) = py_upper (drop_ws s).
Proof.
  induction s as [|c s IH]; simpl; [reflexivity|].
  rewrite isspace_upper. destruct (isspace c); [exact IH|reflexivity].
Qed.

Lemma py_strip_upper s : py_strip (py_upper s) = py_upper (py_strip s).
Proof.
  unfold py_strip. rewrite drop_ws_map_upper.
  unfold py_upper at 1. rewrite <- map_rev. fold (py_upper (rev (drop_ws s))).
  rewrite drop_ws_map_upper. unfold py_upper. now rewrite map_rev.
Qed.

(** ** [normalize_ticker] *)

Lemma forall_py_strip (P : ascii -> Prop) s : Forall P s -> Forall P (py_strip s).
Proof.
  intros H. destruct (py_strip_infix s) as (l1 & l2 & E). rewrite E in H.
  apply Forall_app in H as [_ H]. apply Forall_app in H as [H _]. exact H.
Qed.

Lemma remove_punct_no_punct s :
  Forall (fun c => is_ticker_punct c = false) (remove_ticker_punct s).
Proof.
  apply Forall_forall. intros c Hc. unfold remove_ticker_punct in Hc.
  apply filter_In in Hc as [_ Hc]. now apply negb_true_iff.
Qed.

Lemma remove_punct_id s :
  Forall (fun c => is_ticker_punct c = false) s -> remove_ticker_punct s = s.
Proof.
  induction 1 as [|c s Hc Hs IH]; [reflexivity|].
  unfold remove_ticker_punct in *. simpl. rewrite Hc. simpl. now rewrite IH.
Qed.

Lemma upper_no_punct s :
  Forall (fun c => is_ticker_punct c = false) s ->
  Forall (fun c => is_ticker_punct c = false) (py_upper s).
Proof.
  intros H. unfold py_upper. apply Forall_map.
  eapply Forall_impl; [|exact H]. intros c Hc. now rewrite punct_upper.
Qed.

Lemma upper_no_lower s : Forall (fun c => is_lower c = false) (py_upper s).
Proof.
  unfold py_upper. apply Forall_map. apply Forall_forall. intros c _. apply upper_not_lower.
Qed.

Lemma upper_id s : Forall (fun c => is_lower c = false) s -> py_upper s = s.
Proof.
  induction 1 as [|c s Hc Hs IH]; [reflexivity|].
  simpl. fold (py_upper s). now rewrite IH, upper_nonlower.
Qed.

Lemma sub_suffix_no_dot alts s :
  Forall (fun c => is_ticker_punct c = false) s -> sub_suffix alts s = s.
Proof.
  unfold sub_suffix. induction 1 as [|c s Hc Hs IH]; [reflexivity|].
  simpl. unfold is_ticker_punct in Hc.
  destruct (Ascii.eqb c "."%char); [discriminate|]. now rewrite IH.
Qed.

Lemma match_alts_colon_some alts s r :
  match_alts_colon alts s = Some r -> exists a, In a alts /\ ci_prefix a s = Some (":"%char :: r).
Proof.
  induction alts as [|a alts IH]; simpl; [discriminate|].
  destruct (ci_prefix a s) as [[|c r']|] eqn:E.
  - intros H. destruct (IH H) as (a' & ? & ?). eauto.
  - destruct (Ascii.eqb_spec c ":"%char) as [->|].
    + intros H. injection H as <-. eauto.
    + intros H. destruct (IH H) as (a' & ? & ?). eauto.
  - intros H. destruct (IH H) as (a' & ? & ?). eauto.
Qed.

Lemma ci_prefix_exact a s r :
  Forall (fun c => is_lower c = false) a -> Forall (fun c => is_lower c = false) s ->
  ci_prefix a s = Some r -> s = a ++ r.
Proof.
  revert s. induction a as [|x a IH]; intros s Ha Hs; simpl.
  - congruence.
  - destruct s as [|y s]; [discriminate|].
    inversion Ha; subst. inversion Hs; subst.
    rewrite (upper_nonlower x), (upper_nonlower y) by assumption.
    destruct (Ascii.eqb_spec x y) as [->|]; [|discriminate].
    intros H. f_equal. now apply IH.
Qed.

Lemma ext_prefixes_upper :
  Forall (fun p => Forall (fun c => is_lower c = false) p) Ext.exchange_prefixes.
Proof.
  apply Forall_forall. intros p Hp. apply Forall_forall. intros c Hc.
  simpl in Hp.
  repeat (destruct Hp as [<-|Hp];
          [simpl in Hc; repeat (destruct Hc as [<-|Hc]; [reflexivity|]); destruct Hc|]).
  destruct Hp.
Qed.

Lemma strict_prefixes_upper :
  Forall (fun p => Forall (fun c => is_lower c = false) p) Strict.exchange_prefixes.
Proof.
  pose proof ext_prefixes_upper as H. rewrite Forall_forall in *.
  intros p Hp. apply H. simpl in *. tauto.
Qed.

Lemma no_prefix_match alts z :
  Forall (fun p => Forall (fun c => is_lower c = false) p) alts ->
  Forall (fun c => is_lower c = false) z ->
  (forall p r, In p alts -> z <> p ++ ":"%char :: r) ->
  match_alts_colon alts z = None.
Proof.
  intros Ha Hz Hno. destruct (match_alts_colon alts z) as [r|] eqn:E; [|reflexivity].
  destruct (match_alts_colon_some _ _ _ E) as (a & Hin & Hc).
  exfalso. apply (Hno a r Hin).
  apply (ci_prefix_exact a z); [|exact Hz|exact Hc].
  exact (proj1 (Forall_forall _ _) Ha a Hin).
Qed.

Lemma starts_with_In p s c : starts_with p s = true -> In c p -> In c s.
Proof.
  revert s. induction p as [|a p IH]; intros s H Hc; [destruct Hc|].
  destruct s as [|b s]; simpl in H; [discriminate|].
  apply andb_true_iff in H as [Hab H]. apply Ascii.eqb_eq in Hab as <-.
  destruct Hc as [<-|Hc]; [now left|right; eauto].
Qed.

Lemma not_ends_cn z :
  Forall (fun c => is_ticker_punct c = false) z -> ends_with (L ".CN") z = false.
Proof.
  intros Hz. destruct (ends_with (L ".CN") z) eqn:E; [|reflexivity].
  unfold ends_with in E.
  assert (Hd : In "."%char (rev z)) by (apply (starts_with_In _ _ _ E); simpl; auto).
  apply in_rev in Hd. apply (proj1 (Forall_forall _ _) Hz) in Hd. discriminate Hd.
Qed.

Lemma L_S_ z : L (S_ z) = z.
Proof. apply list_ascii_of_string_of_list_ascii. Qed.

Lemma S_L s : S_ (L s) = s.
Proof. apply string_of_list_ascii_of_string. Qed.

Lemma truthy_S_ z : z <> [] -> truthy (Some (S_ z)) = true.
Proof. destruct z; [congruence|reflexivity]. Qed.

(** What a normalized ticker looks like: no lower-case letter, stripped. *)
Lemma upper_strip_shape u :
  Forall (fun c => is_lower c = false) (py_upper (py_strip u)) /\
  py_strip (py_upper (py_strip u)) = py_upper (py_strip u).
Proof.
  split; [apply upper_no_lower|]. now rewrite py_strip_upper, py_strip_idem.
Qed.

Lemma ext_second_pass z :
  z <> [] -> Forall (fun c => is_ticker_punct c = false) z ->
  Forall (fun c => is_lower c = false) z -> py_strip z = z ->
  match_alts_colon Ext.exchange_prefixes z = None ->
  Ext.normalize_ticker (Some (S_ z)) = Some (S_ z).
Proof.
  intros Hne Hp Hl Hs Hm. unfold Ext.normalize_ticker.
  rewrite truthy_S_ by exact Hne. cbn [negb]. rewrite L_S_.
  unfold sub_prefix. rewrite Hm, sub_suffix_no_dot, remove_punct_id, Hs, upper_id by assumption.
  reflexivity.
Qed.

Lemma strict_second_pass z :
  z <> [] -> Forall (fun c => is_ticker_punct c = false) z ->
  Forall (fun c => is_lower c = false) z -> py_strip z = z ->
  match_alts_colon Strict.exchange_prefixes z = None ->
  Strict.normalize_ticker (Some (S_ z)) = Some (S_ z).
Proof.
  intros Hne Hp Hl Hs Hm. unfold Strict.normalize_ticker.
  rewrite truthy_S_ by exact Hne. cbn [negb]. rewrite L_S_, not_ends_cn by exact Hp.
  unfold sub_prefix. rewrite Hm, sub_suffix_no_dot, remove_punct_id, Hs, upper_id by assumption.
  reflexivity.
Qed.

(** ** C4 *)

(** C4, counterexample: a ticker with two exchange prefixes loses one per
    call, and a ticker made only of an exchange prefix normalizes to the
    empty string, which normalizes to [None]; in both scripts. *)
Lemma ticker_normalization_not_idempotent :
  Strict.normalize_ticker (Some "TSX:TSXV:ABC") = Some "TSXV:ABC" /\
  Strict.normalize_ticker (Some "TSXV:ABC") = Some "ABC" /\
  Ext.normalize_ticker (Some "TSX:TSXV:ABC") = Some "TSXV:ABC" /\
  Ext.normalize_ticker (Some "TSXV:ABC") = Some "ABC" /\
  Ext.normalize_ticker (Some "TSX:") = Some "" /\
  Ext.normalize_ticker (Some "") = None /\
  ~ (forall x, Strict.normalize_ticker (Strict.normalize_ticker x) = Strict.normalize_ticker x) /\
  ~ (forall x, Ext.normalize_ticker (Ext.normalize_ticker x) = Ext.normalize_ticker x).
Proof.
  repeat split; try reflexivity.
  - intros H. specialize (H (Some "TSX:TSXV:ABC")). vm_compute in H. discriminate H.
  - intros H. specialize (H (Some "TSX:")). vm_compute in H. discriminate H.
Qed.

(** C4 (amended): a normalized ticker is a fixed point of [normalize_ticker]
    when it is non-empty and does not begin with one of the script's
    exchange codes followed by [:].  In mapping_script.py this needs, in
    addition, that the input did not end in [.CN] (that branch keeps dots,
    dashes and underscores) or that the result has none of them. *)
Theorem ticker_normalization_idempotent_unprefixed :
  (forall x y, Ext.normalize_ticker x = Some y -> y <> "" ->
     (forall p r, In p Ext.exchange_prefixes -> L y <> p ++ ":"%char :: r) ->
     Ext.normalize_ticker (Some y) = Some y) /\
  (forall x y, Strict.normalize_ticker x = Some y -> y <> "" ->
     (forall p r, In p Strict.exchange_prefixes -> L y <> p ++ ":"%char :: r) ->
     (forall t, x = Some t -> ends_with (L ".CN") (L t) = false) \/
       Forall (fun c => is_ticker_punct c = false) (L y) ->
     Strict.normalize_ticker (Some y) = Some y).
Proof.
  split.
  - intros x y H Hne Hpre. unfold Ext.normalize_ticker in H at 1.
    destruct (truthy x); cbn [negb] in H; [|discriminate].
    injection H as <-.
    set (z := py_upper (py_strip _)).
    destruct (upper_strip_shape
      (remove_ticker_punct (sub_suffix Ext.exchange_suffixes
         (sub_prefix Ext.exchange_prefixes match x with Some t => L t | None => [] end))))
      as [Hl Hs].
    rewrite L_S_ in Hpre.
    apply ext_second_pass; try assumption.
    + intros E. apply Hne. fold z. rewrite E. reflexivity.
    + apply upper_no_punct, forall_py_strip, remove_punct_no_punct.
    + apply no_prefix_match; [exact ext_prefixes_upper|exact Hl|exact Hpre].
  - intros x y H Hne Hpre Hcn. unfold Strict.normalize_ticker in H at 1.
    destruct (truthy x); cbn [negb] in H; [|discriminate].
    destruct (ends_with (L ".CN") match x with Some t => L t | None => [] end) eqn:Ecn.
    + injection H as <-. rewrite L_S_ in Hpre, Hcn.
      destruct (upper_strip_shape (drop_last 3 match x with Some t => L t | None => [] end))
        as [Hl Hs].
      destruct Hcn as [Hcn|Hp].
      * destruct x as [t|]; [|discriminate].
        rewrite (Hcn t eq_refl) in Ecn. discriminate.
      * apply strict_second_pass; try assumption.
        -- intros E. apply Hne. rewrite E. reflexivity.
        -- apply no_prefix_match; [exact strict_prefixes_upper|exact Hl|exact Hpre].
    + injection H as <-. rewrite L_S_ in Hpre.
      set (z := py_upper (py_strip _)).
      destruct (upper_strip_shape
        (remove_ticker_punct (sub_suffix Strict.exchange_suffixes
           (sub_prefix Strict.exchange_prefixes match x with Some t => L t | None => [] end))))
        as [Hl Hs].
      apply strict_second_pass; try assumption.
      * intros E. apply Hne. fold z. rewrite E. reflexivity.
      * apply upper_no_punct, forall_py_strip, remove_punct_no_punct.
      * apply no_prefix_match; [exact strict_prefixes_upper|exact Hl|exact Hpre].
Qed.

Lemma ticker_normalization_idempotent_unprefixed_witness :
  Ext.normalize_ticker (Some "tsxv:abc.to") = Some "ABC" /\
  Ext.normalize_ticker (Some "ABC") = Some "ABC" /\
  Strict.normalize_ticker (Some "CVE:ABC.V") = Some "ABC" /\
  Strict.normalize_ticker (Some "ABC") = Some "ABC".
Proof.
  assert (Hs : "ABC" <> "") by discriminate.
  assert (He : forall p r, In p Ext.exchange_prefixes -> L "ABC" <> p ++ ":"%char :: r).
  { intros p r Hp E. simpl in Hp.
    repeat (destruct Hp as [<-|Hp]; [discriminate E|]). destruct Hp. }
  assert (Ht : forall p r, In p Strict.exchange_prefixes -> L "ABC" <> p ++ ":"%char :: r).
  { intros p r Hp E. simpl in Hp.
    repeat (destruct Hp as [<-|Hp]; [discriminate E|]). destruct Hp. }
  assert (H1 : Ext.normalize_ticker (Some "tsxv:abc.to") = Some "ABC") by reflexivity.
  assert (H2 : Strict.normalize_ticker (Some "CVE:ABC.V") = Some "ABC") by reflexivity.
  destruct ticker_normalization_idempotent_unprefixed as [Hext Hstr].
  refine (conj H1 (conj (Hext _ _ H1 Hs He) (conj H2 (Hstr _ _ H2 Hs Ht _)))).
  left. intros t E. injection E as <-. reflexivity.
Defined.

(** ** [normalize_name] *)

Lemma lower_not_upper c : is_upper (lower_char c) = false.
Proof. code_crush. Qed.

Lemma lower_nonupper c : is_upper c = false -> lower_char c = c.
Proof. unfold lower_char. now intros ->. Qed.

Lemma upper_inj_nonupper a b :
  is_upper a = false -> is_upper b = false -> upper_char a = upper_char b -> a = b.
Proof.
  intros Ha Hb H. apply code_inj. apply (f_equal code) in H.
  rewrite !code_upper in H. code_crush.
Qed.

Lemma good_not_space c : good_name_char c = true -> Ascii.eqb c " "%char = false -> isspace c = false.
Proof. unfold good_name_char. code_crush. Qed.

Lemma good_not_upper c : good_name_char c = true -> is_upper c = false.
Proof. unfold good_name_char. code_crush. Qed.

Lemma good_not_newline c : good_name_char c = true -> Ascii.eqb c "010"%char = false.
Proof. unfold good_name_char. code_crush. Qed.

Lemma pre_good_or_space c :
  pre_name_char c = true -> isspace c = false -> good_name_char c = true.
Proof. unfold pre_name_char, good_name_char. code_crush. Qed.

Lemma blank_space_good : good_name_char " "%char = true.
Proof. reflexivity. Qed.

Lemma ci_prefix_suffix p s r : ci_prefix p s = Some r -> exists q, s = q ++ r.
Proof.
  revert s. induction p as [|a p IH]; intros s H; simpl in H.
  - injection H as <-. now exists [].
  - destruct s as [|b s]; [discriminate|].
    destruct (Ascii.eqb _ _); [|discriminate].
    destruct (IH _ H) as [q ->]. now exists (b :: q).
Qed.

Lemma drop_ws_suffix s : exists q, s = q ++ drop_ws s.
Proof. destruct (drop_ws_split s) as (l1 & H & _). eauto. Qed.

Lemma match_ws_word_suffix w o s r : match_ws_word w o s = Some r -> exists q, s = q ++ r.
Proof.
  unfold match_ws_word. destruct s as [|c s']; [discriminate|].
  destruct (isspace c); [|discriminate].
  destruct (ci_prefix w (drop_ws (c :: s'))) as [r1|] eqn:E1; [|discriminate].
  destruct (drop_ws_suffix (c :: s')) as [q1 Hq1].
  destruct (ci_prefix_suffix _ _ _ E1) as [q2 Hq2].
  assert (Hr1 : exists q, c :: s' = q ++ r1) by (exists (q1 ++ q2); rewrite Hq1 at 1; rewrite Hq2; apply app_assoc).
  destruct Hr1 as [q Hq].
  intros H.
  destruct o as [d|]; [destruct r1 as [|d' r2]|].
  - destruct (at_end []); [|discriminate]. injection H as <-. eauto.
  - destruct (Ascii.eqb (upper_char d) (upper_char d') && at_end r2).
    + injection H as <-. exists (q ++ [d']). rewrite Hq, <- app_assoc. reflexivity.
    + destruct (at_end (d' :: r2)); [|discriminate]. injection H as <-. eauto.
  - destruct (at_end r1); [|discriminate]. injection H as <-. eauto.
Qed.

Lemma sub_leftmost_incl (m : chars -> option chars) s c :
  (forall s r, m s = Some r -> exists q, s = q ++ r) ->
  In c (sub_leftmost m s) -> In c s.
Proof.
  intros Hm. induction s as [|x s IH]; simpl.
  - destruct (m []) as [r|] eqn:E; [|tauto].
    destruct (Hm _ _ E) as [q Hq]. symmetry in Hq. apply app_eq_nil in Hq as [_ ->]. tauto.
  - destruct (m (x :: s)) as [r|] eqn:E.
    + destruct (Hm _ _ E) as [q Hq]. intros Hc.
      assert (Hin : In c (q ++ r)) by (apply in_or_app; now right).
      rewrite <- Hq in Hin. exact Hin.
    + intros [<-|Hc]; [now left|right; auto].
Qed.

Lemma suffix_fold_forall (P : ascii -> Prop) (sfx : list (chars * option ascii)) s :
  Forall P s ->
  Forall P (fold_left (fun acc p => sub_leftmost (match_ws_word (fst p) (snd p)) acc) sfx s).
Proof.
  revert s. induction sfx as [|[w o] sfx IH]; intros s Hs; simpl; [exact Hs|].
  apply IH. apply Forall_forall. intros c Hc.
  apply (sub_leftmost_incl _ _ _ (match_ws_word_suffix w o)) in Hc.
  exact (proj1 (Forall_forall _ _) Hs c Hc).
Qed.

Lemma lower_no_upper s : Forall (fun c => is_upper c = false) (py_lower s).
Proof.
  unfold py_lower. apply Forall_map. apply Forall_forall. intros c _. apply lower_not_upper.
Qed.

Lemma blank_specials_pre s :
  Forall (fun c => is_upper c = false) s -> Forall (fun c => pre_name_char c = true) (blank_specials s).
Proof.
  intros H. unfold blank_specials. apply Forall_map.
  eapply Forall_impl; [|exact H]. intros c Hc. cbv beta.
  destruct (is_word c) eqn:Ew; simpl.
  - unfold pre_name_char. now rewrite Ew, Hc.
  - destruct (isspace c) eqn:Es; simpl.
    + unfold pre_name_char. rewrite Ew, Es. apply orb_true_r.
    + reflexivity.
Qed.

Lemma collapse_props s b :
  Forall (fun c => pre_name_char c = true) s ->
  Forall (fun c => good_name_char c = true) (collapse_ws b s) /\
  nds (collapse_ws b s) = true /\
  (b = true -> head_not_blank (collapse_ws b s)).
Proof.
  revert b. induction s as [|c s IH]; intros b Hs; simpl; [repeat split; constructor|].
  inversion Hs as [|? ? Hc Hs']; subst.
  destruct (isspace c) eqn:Esp.
  - destruct (IH true Hs') as (G & N & H). specialize (H eq_refl).
    destruct b.
    + repeat split; auto.
    + repeat split; [constructor; [reflexivity|exact G]| |discriminate].
      destruct (collapse_ws true s) as [|d r]; [reflexivity|].
      change (negb (Ascii.eqb " "%char " "%char && Ascii.eqb d " "%char) && nds (d :: r) = true).
      simpl in H. rewrite H, N. reflexivity.
  - destruct (IH false Hs') as (G & N & _).
    assert (Hg : good_name_char c = true) by (now apply pre_good_or_space).
    assert (Hb : Ascii.eqb c " "%char = false).
    { destruct (Ascii.eqb_spec c " "%char) as [->|]; [discriminate Esp|reflexivity]. }
    repeat split.
    + constructor; assumption.
    + simpl. rewrite Hb. simpl. destruct (collapse_ws false s); exact N.
    + intros _. exact Hb.
Qed.

Lemma nds_app x y : nds (x ++ y) = true -> nds x = true /\ nds y = true.
Proof.
  induction x as [|a x IH]; simpl; [auto|].
  intros H. apply andb_true_iff in H as [H1 H2].
  destruct (IH H2) as [Hx Hy]. split; [|exact Hy].
  destruct x as [|b x']; simpl in *; [reflexivity|].
  now rewrite H1, Hx.
Qed.

Lemma strip_name_props s :
  Forall (fun c => good_name_char c = true) s -> nds s = true ->
  Forall (fun c => good_name_char c = true) (py_strip s) /\ nds (py_strip s) = true.
Proof.
  intros G N. split; [now apply forall_py_strip|].
  destruct (py_strip_infix s) as (l1 & l2 & E). rewrite E in N.
  apply nds_app in N as [_ N]. apply nds_app in N as [N _]. exact N.
Qed.

(** The shape of a normalized name: word characters that are not
    upper-case, and single spaces. *)
Lemma normalize_name_with_shape sfx name :
  Forall (fun c => good_name_char c = true) (L (normalize_name_with sfx name)) /\
  nds (L (normalize_name_with sfx name)) = true.
Proof.
  unfold normalize_name_with.
  destruct (negb (truthy name)); [split; [constructor|reflexivity]|].
  rewrite L_S_. apply strip_name_props; apply collapse_props;
    apply blank_specials_pre, suffix_fold_forall, lower_no_upper.
Qed.

Lemma starts_with_app x y : starts_with x (x ++ y) = true.
Proof.
  induction x as [|a x IH]; simpl; [reflexivity|].
  rewrite IH, andb_true_r. apply Ascii.eqb_refl.
Qed.

Lemma ends_with_app q p : ends_with q (p ++ q) = true.
Proof. unfold ends_with. rewrite rev_app_distr. apply starts_with_app. Qed.

Lemma lower_id s : Forall (fun c => is_upper c = false) s -> py_lower s = s.
Proof.
  induction 1 as [|c s Hc Hs IH]; [reflexivity|].
  simpl. fold (py_lower s). now rewrite IH, lower_nonupper.
Qed.

Lemma sub_leftmost_id (m : chars -> option chars) s :
  (forall p r, s = p ++ r -> m r = None) -> sub_leftmost m s = s.
Proof.
  induction s as [|c s IH]; intros H; simpl.
  - now rewrite (H [] [] eq_refl).
  - rewrite (H [] (c :: s) eq_refl). f_equal. apply IH.
    intros p r E. apply (H (c :: p) r). now rewrite E.
Qed.

Lemma ci_prefix_exact_lower a s r :
  Forall (fun c => is_upper c = false) a -> Forall (fun c => is_upper c = false) s ->
  ci_prefix a s = Some r -> s = a ++ r.
Proof.
  revert s. induction a as [|x a IH]; intros s Ha Hs; simpl.
  - congruence.
  - destruct s as [|y s]; [discriminate|].
    inversion Ha; subst. inversion Hs; subst.
    destruct (Ascii.eqb_spec (upper_char x) (upper_char y)) as [E|]; [|discriminate].
    apply upper_inj_nonupper in E; [|assumption|assumption]. subst y.
    intros H. f_equal. now apply IH.
Qed.

Lemma good_nonupper_all z :
  Forall (fun c => good_name_char c = true) z -> Forall (fun c => is_upper c = false) z.
Proof. intros H. eapply Forall_impl; [|exact H]. exact good_not_upper. Qed.

Lemma at_end_good r :
  Forall (fun c => good_name_char c = true) r -> at_end r = true -> r = [].
Proof.
  destruct r as [|x [|y r]]; simpl; intros G H; [reflexivity| |discriminate].
  inversion G; subst. rewrite good_not_newline in H by assumption. discriminate.
Qed.

(** In a normalized name no suffix pattern matches, unless the name ends
    with a space and one of the pattern's words. *)
Lemma match_ws_word_none z w o :
  Forall (fun c => good_name_char c = true) z -> nds z = true ->
  Forall (fun c => is_upper c = false) w ->
  (forall d, o = Some d -> is_upper d = false) ->
  ends_with (" "%char :: w) z = false ->
  (forall d, o = Some d -> ends_with (" "%char :: w ++ [d]) z = false) ->
  forall p r, z = p ++ r -> match_ws_word w o r = None.
Proof.
  intros G N Hw Ho Hend Hend' p r E.
  destruct (match_ws_word w o r) as [r0|] eqn:M; [exfalso|reflexivity].
  unfold match_ws_word in M.
  destruct r as [|c r']; [discriminate|].
  destruct (isspace c) eqn:Sc; [|discriminate].
  assert (Gz : Forall (fun c => good_name_char c = true) (c :: r')).
  { rewrite E in G. apply Forall_app in G as [_ G]. exact G. }
  apply Forall_cons_iff in Gz as [Gc Gr'].
  assert (Ec : c = " "%char).
  { destruct (Ascii.eqb_spec c " "%char) as [->|Hne]; [reflexivity|].
    apply Ascii.eqb_neq in Hne. rewrite (good_not_space c Gc Hne) in Sc. discriminate. }
  subst c.
  assert (Hd : drop_ws (" "%char :: r') = r').
  { simpl. apply drop_ws_head. destruct r' as [|c' r'']; [exact I|].
    simpl. apply (good_not_space c'); [exact (Forall_inv Gr')|].
    rewrite E in N. apply nds_app in N as [_ N]. simpl in N.
    destruct (Ascii.eqb c' " "%char); [discriminate|reflexivity]. }
  rewrite Hd in M.
  destruct (ci_prefix w r') as [r1|] eqn:C; [|discriminate].
  apply ci_prefix_exact_lower in C; [|exact Hw|now apply good_nonupper_all].
  subst r'.
  assert (Gr1 : Forall (fun c => good_name_char c = true) r1).
  { apply Forall_app in Gr' as [_ G1]. exact G1. }
  assert (Hat : at_end r1 = true -> False).
  { intros A. apply at_end_good in A; [subst r1|exact Gr1].
    rewrite E, app_nil_r in Hend. rewrite ends_with_app in Hend. discriminate. }
  destruct o as [d|]; [destruct r1 as [|d' r2]|].
  - destruct (at_end []) eqn:A; [now apply Hat|discriminate].
  - destruct (Ascii.eqb (upper_char d) (upper_char d') && at_end r2) eqn:B.
    + apply andb_true_iff in B as [Bd Br].
      apply Ascii.eqb_eq, upper_inj_nonupper in Bd;
        [|now apply Ho|exact (good_not_upper _ (Forall_inv Gr1))].
      subst d'. apply at_end_good in Br; [subst r2|exact (Forall_inv_tail Gr1)].
      specialize (Hend' d eq_refl). rewrite E in Hend'.
      replace (p ++ " "%char :: w ++ [d]) with (p ++ (" "%char :: w ++ [d])) in Hend' by reflexivity.
      rewrite ends_with_app in Hend'. discriminate.
    + destruct (at_end (d' :: r2)) eqn:A; [now apply Hat|discriminate].
  - destruct (at_end r1) eqn:A; [now apply Hat|discriminate].
Qed.

Lemma collapse_id z b :
  Forall (fun c => good_name_char c = true) z -> nds z = true ->
  (b = true -> head_not_blank z) -> collapse_ws b z = z.
Proof.
  revert b. induction z as [|c z IH]; intros b G N Hh; [reflexivity|].
  apply Forall_cons_iff in G as [Gc G]. simpl.
  assert (Nz : nds z = true) by (simpl in N; apply andb_true_iff in N; tauto).
  destruct (Ascii.eqb c " "%char) eqn:Eb.
  - apply Ascii.eqb_eq in Eb. subst c. simpl.
    destruct b; [specialize (Hh eq_refl); discriminate Hh|].
    f_equal. apply IH; [exact G|exact Nz|].
    intros _. destruct z as [|d z']; [exact I|].
    simpl in N. simpl. destruct (Ascii.eqb d " "%char); [discriminate|reflexivity].
  - rewrite (good_not_space c Gc Eb). f_equal.
    apply IH; [exact G|exact Nz|discriminate].
Qed.

Lemma blank_id z : Forall (fun c => good_name_char c = true) z -> blank_specials z = z.
Proof.
  induction 1 as [|c z Gc G IH]; [reflexivity|].
  unfold blank_specials in *. simpl. rewrite IH. f_equal.
  unfold good_name_char in Gc.
  destruct (is_word c) eqn:Ew; [reflexivity|]. simpl in Gc.
  apply Ascii.eqb_eq in Gc. subst c. reflexivity.
Qed.

Lemma suffix_fold_id (sfx : list (chars * option ascii)) z :
  Forall (fun p => Forall (fun c => is_upper c = false) (fst p) /\
                   forall d, snd p = Some d -> is_upper d = false) sfx ->
  Forall (fun c => good_name_char c = true) z -> nds z = true ->
  (forall w, In w (suffix_words sfx) -> ends_with (" "%char :: w) z = false) ->
  fold_left (fun acc p => sub_leftmost (match_ws_word (fst p) (snd p)) acc) sfx z = z.
Proof.
  intros Hs G N Hend. induction sfx as [|[w o] sfx IH]; [reflexivity|].
  apply Forall_cons_iff in Hs as [[Hw Ho] Hs]. simpl in *.
  rewrite sub_leftmost_id.
  - apply IH; [exact Hs|]. intros w' Hin. apply Hend. apply in_or_app. now right.
  - apply (match_ws_word_none z w o G N Hw Ho).
    + apply Hend. apply in_or_app. left. destruct o; simpl; auto.
    + intros d ->. apply Hend. apply in_or_app. left. simpl. auto.
Qed.

Lemma normalize_name_with_stripped sfx name :
  py_strip (L (normalize_name_with sfx name)) = L (normalize_name_with sfx name).
Proof.
  unfold normalize_name_with. destruct (negb (truthy name)); [reflexivity|].
  rewrite L_S_. apply py_strip_idem.
Qed.

Lemma normalize_name_with_idem sfx x :
  Forall (fun p => Forall (fun c => is_upper c = false) (fst p) /\
                   forall d, snd p = Some d -> is_upper d = false) sfx ->
  (forall w, In w (suffix_words sfx) ->
     ends_with (" "%char :: w) (L (normalize_name_with sfx (Some x))) = false) ->
  normalize_name_with sfx (Some (normalize_name_with sfx (Some x))) = normalize_name_with sfx (Some x).
Proof.
  intros Hs Hend.
  destruct (normalize_name_with_shape sfx (Some x)) as [G N].
  pose proof (normalize_name_with_stripped sfx (Some x)) as St.
  set (y := normalize_name_with sfx (Some x)) in *.
  unfold normalize_name_with at 1.
  destruct (truthy (Some y)) eqn:T; cbn [negb].
  - rewrite lower_id by now apply good_nonupper_all.
    rewrite suffix_fold_id by assumption.
    rewrite blank_id, collapse_id, St by first [assumption | discriminate].
    apply S_L.
  - destruct y; [reflexivity|discriminate].
Qed.

Lemma strict_suffixes_ok :
  Forall (fun p => Forall (fun c => is_upper c = false) (fst p) /\
                   forall d, snd p = Some d -> is_upper d = false) Strict.name_suffixes.
Proof.
  apply Forall_forall. intros [w o] Hin. vm_compute in Hin.
  repeat (destruct Hin as [E|Hin];
          [injection E as <- <-; split;
           [repeat constructor
           |intros d E; first [discriminate E | injection E as <-; reflexivity]]|]).
  destruct Hin.
Qed.

Lemma ext_suffixes_ok :
  Forall (fun p => Forall (fun c => is_upper c = false) (fst p) /\
                   forall d, snd p = Some d -> is_upper d = false) Ext.name_suffixes.
Proof.
  apply Forall_forall. intros [w o] Hin. vm_compute in Hin.
  repeat (destruct Hin as [E|Hin];
          [injection E as <- <-; split;
           [repeat constructor
           |intros d E; first [discriminate E | injection E as <-; reflexivity]]|]).
  destruct Hin.
Qed.

Lemma no_suffix_word_left sfx z :
  forallb (fun w => negb (ends_with (" "%char :: w) z)) (suffix_words sfx) = true ->
  forall w, In w (suffix_words sfx) -> ends_with (" "%char :: w) z = false.
Proof.
  intros H w Hin. rewrite forallb_forall in H. apply negb_true_iff. exact (H w Hin).
Qed.

(** ** C5 *)

(** C5, counterexample: suffix stripping is one pass over the ordered
    list, so an inner suffix that sits earlier in the list survives when the
    outer one is removed: "Acme Inc Gold" normalizes to "acme inc", which
    normalizes to "acme"; in both scripts. *)
Lemma name_normalization_not_idempotent :
  Strict.normalize_name (Some "Acme Inc Gold") = "acme inc" /\
  Strict.normalize_name (Some "acme inc") = "acme" /\
  Ext.normalize_name (Some "Acme Inc Gold") = "acme inc" /\
  Ext.normalize_name (Some "acme inc") = "acme" /\
  ~ (forall x, Strict.normalize_name (Some (Strict.normalize_name (Some x))) =
               Strict.normalize_name (Some x)) /\
  ~ (forall x, Ext.normalize_name (Some (Ext.normalize_name (Some x))) =
               Ext.normalize_name (Some x)).
Proof.
  split; [vm_compute; reflexivity|]. split; [vm_compute; reflexivity|].
  split; [vm_compute; reflexivity|]. split; [vm_compute; reflexivity|].
  split.
  - intros H. specialize (H "Acme Inc Gold"). vm_compute in H. discriminate H.
  - intros H. specialize (H "Acme Inc Gold"). vm_compute in H. discriminate H.
Qed.

(** C5 (amended): [normalize_name] returns the empty string for [None] and
    for the empty string, and a normalized name is a fixed point of
    [normalize_name] unless it ends with a space followed by one of the
    words a suffix pattern removes (in both scripts). *)
Theorem name_normalization_idempotent_unless_suffix_left :
  (Strict.normalize_name None = "" /\ Strict.normalize_name (Some "") = "" /\
   Ext.normalize_name None = "" /\ Ext.normalize_name (Some "") = "") /\
  (forall x,
     (forall w, In w (suffix_words Strict.name_suffixes) ->
        ends_with (" "%char :: w) (L (Strict.normalize_name (Some x))) = false) ->
     Strict.normalize_name (Some (Strict.normalize_name (Some x))) = Strict.normalize_name (Some x)) /\
  (forall x,
     (forall w, In w (suffix_words Ext.name_suffixes) ->
        ends_with (" "%char :: w) (L (Ext.normalize_name (Some x))) = false) ->
     Ext.normalize_name (Some (Ext.normalize_name (Some x))) = Ext.normalize_name (Some x)).
Proof.
  split; [repeat split|split].
  - intros x H. apply normalize_name_with_idem; [exact strict_suffixes_ok|exact H].
  - intros x H. apply normalize_name_with_idem; [exact ext_suffixes_ok|exact H].
Qed.

Lemma name_normalization_idempotent_unless_suffix_left_witness :
  Strict.normalize_name (Some "Agnico Eagle Mines Ltd") = "agnico eagle" /\
  Strict.normalize_name (Some "agnico eagle") = "agnico eagle" /\
  Ext.normalize_name (Some "Probe Gold Inc.") = "probe" /\
  Ext.normalize_name (Some "probe") = "probe".
Proof.
  assert (H1 : Strict.normalize_name (Some "Agnico Eagle Mines Ltd") = "agnico eagle")
    by (vm_compute; reflexivity).
  assert (H2 : Ext.normalize_name (Some "Probe Gold Inc.") = "probe") by (vm_compute; reflexivity).
  destruct name_normalization_idempotent_unless_suffix_left as (_ & Hs & He).
  split; [exact H1|]. split.
  - rewrite <- H1 at 1 2. apply Hs. rewrite H1.
    apply no_suffix_word_left. vm_compute. reflexivity.
  - split; [exact H2|].
    rewrite <- H2 at 1 2. apply He. rewrite H2.
    apply no_suffix_word_left. vm_compute. reflexivity.
Defined.

(** ** C7 *)

Lemma first_occurrence (x : ascii) (l : chars) :
  In x l -> exists q r, l = q ++ x :: r /\ ~ In x q.
Proof.
  induction l as [|y l IH]; intros H; [destruct H|].
  destruct (ascii_dec y x) as [<-|Hne].
  - exists [], l. split; [reflexivity|intros []].
  - destruct H as [E|H]; [congruence|].
    destruct (IH H) as (q & r & -> & Hq).
    exists (y :: q), r. split; [reflexivity|].
    intros [E|Hin]; [congruence|contradiction].
Qed.

Lemma paren_scan_open (q : chars) (acc s : chars) :
  ~ In ")"%char q ->
  paren_scan (Some acc) (q ++ s) = paren_scan (Some (rev q ++ acc)) s.
Proof.
  revert acc. induction q as [|c q IH]; intros acc Hq; [reflexivity|].
  simpl. destruct (Ascii.eqb c ")"%char) eqn:E.
  - apply Ascii.eqb_eq in E. subst. exfalso. apply Hq. left. reflexivity.
  - rewrite IH by (intros H; apply Hq; right; exact H).
    rewrite <- app_assoc. reflexivity.
Qed.

Lemma paren_scan_plain (b : chars) :
  ~ In "("%char b -> paren_scan None b = (b, []).
Proof.
  induction b as [|c b IH]; intros Hb; [reflexivity|].
  simpl. destruct (Ascii.eqb c "("%char) eqn:E.
  - apply Ascii.eqb_eq in E. subst. exfalso. apply Hb. left. reflexivity.
  - rewrite IH by (intros H; apply Hb; right; exact H). reflexivity.
Qed.

Lemma paren_scan_segment (q t : chars) :
  ~ In ")"%char q ->
  paren_scan None ("("%char :: q ++ ")"%char :: t) =
  match q with
  | [] => let '(k, cs) := paren_scan None t in ("("%char :: ")"%char :: k, cs)
  | _ => let '(k, cs) := paren_scan None t in (k, q :: cs)
  end.
Proof.
  intros Hq. cbn [paren_scan]. change (Ascii.eqb "("%char "("%char) with true. cbv iota.
  rewrite paren_scan_open by exact Hq. rewrite app_nil_r.
  cbn [paren_scan]. change (Ascii.eqb ")"%char ")"%char) with true. cbv iota.
  destruct q as [|c q'] eqn:Eq; [reflexivity|].
  rewrite <- Eq. destruct (rev q) eqn:Er.
  - exfalso. apply (f_equal (@length ascii)) in Er. rewrite length_rev in Er.
    subst q. discriminate Er.
  - rewrite <- Er, rev_involutive. reflexivity.
Qed.

Lemma paren_scan_closed_app (a s : chars) :
  parens_closed a ->
  paren_scan None (a ++ s) =
  (fst (paren_scan None a) ++ fst (paren_scan None s),
   snd (paren_scan None a) ++ snd (paren_scan None s)).
Proof.
  remember (length a) as n eqn:Hn.
  revert a Hn. induction n as [n IH] using (well_founded_induction lt_wf).
  intros a Hn Ha. destruct a as [|c a'].
  - simpl. destruct (paren_scan None s). reflexivity.
  - destruct (Ascii.eqb c "("%char) eqn:E.
    + apply Ascii.eqb_eq in E. subst c.
      destruct (first_occurrence ")"%char a') as (q & r & -> & Hq).
      { exact (Ha [] _ eq_refl). }
      assert (Hr : parens_closed r).
      { intros p p' Ep. subst r.
        specialize (Ha ("("%char :: q ++ ")"%char :: p) p').
        rewrite <- !app_comm_cons, <- app_assoc in Ha. simpl in Ha. exact (Ha eq_refl). }
      assert (Hlen : (length r < n)%nat).
      { subst n. simpl. rewrite length_app. simpl. lia. }
      rewrite <- app_comm_cons, <- app_assoc, <- app_comm_cons.
      rewrite !paren_scan_segment by exact Hq.
      rewrite (IH (length r) Hlen r eq_refl Hr).
      destruct (paren_scan None r) as [k1 c1], (paren_scan None s) as [k2 c2].
      destruct q; reflexivity.
    + assert (Ha' : parens_closed a').
      { intros p p' Ep. apply (Ha (c :: p) p'). rewrite Ep. reflexivity. }
      assert (Hlen : (length a' < n)%nat) by (subst n; simpl; lia).
      simpl. rewrite E. rewrite (IH (length a') Hlen a' eq_refl Ha').
      destruct (paren_scan None a') as [k1 c1], (paren_scan None s) as [k2 c2].
      reflexivity.
Qed.

Lemma in_if_snoc {A} (x y : A) (l : list A) (b : bool) :
  In x l -> In x (if b then l ++ [y] else l).
Proof. intros H. destruct b; [apply in_or_app; left|]; exact H. Qed.

Lemma in_if_if_snoc {A} (x y : A) (l : list A) (b1 b2 : bool) :
  In x l -> In x (if b1 then (if b2 then l ++ [y] else l) else l).
Proof. intros H. destruct b1; [apply in_if_snoc|]; exact H. Qed.

Lemma has_char_In c s : In c s -> has_char c s = true.
Proof.
  intros H. unfold has_char. apply existsb_exists. exists c. split; [exact H|].
  apply Ascii.eqb_refl.
Qed.

Lemma segment_has_parens (a c b : chars) :
  has_char "("%char (a ++ "("%char :: c ++ ")"%char :: b) &&
  has_char ")"%char (a ++ "("%char :: c ++ ")"%char :: b) = true.
Proof.
  rewrite !has_char_In; [reflexivity| |].
  - apply in_or_app. right. right. apply in_or_app. right. left. reflexivity.
  - apply in_or_app. right. left. reflexivity.
Qed.

Lemma no_open_closed a : ~ In "("%char a -> parens_closed a.
Proof.
  intros Ha p q ->. exfalso. apply Ha. apply in_or_app. right. left. reflexivity.
Qed.

Lemma segment_contents (a c b : chars) :
  parens_closed a -> c <> [] -> ~ In ")"%char c ->
  In c (paren_contents (a ++ "("%char :: c ++ ")"%char :: b)).
Proof.
  intros Ha Hc Hc'. unfold paren_contents.
  rewrite paren_scan_closed_app by exact Ha. cbn [snd].
  rewrite paren_scan_segment by exact Hc'.
  apply in_or_app. right.
  destruct c as [|x c]; [congruence|].
  destruct (paren_scan None b). left. reflexivity.
Qed.

Lemma segment_removed (a c b : chars) :
  ~ In "("%char a -> ~ In "("%char b -> c <> [] -> ~ In ")"%char c ->
  paren_removed (a ++ "("%char :: c ++ ")"%char :: b) = a ++ b.
Proof.
  intros Ha Hb Hc Hc'. unfold paren_removed.
  rewrite paren_scan_closed_app by (apply no_open_closed; exact Ha). cbn [fst].
  rewrite paren_scan_segment by exact Hc'.
  rewrite paren_scan_plain by exact Ha.
  destruct c as [|x c]; [congruence|].
  rewrite paren_scan_plain by exact Hb. reflexivity.
Qed.

Lemma strict_aliases_incl name x :
  In x (let n := L name in
        if has_char "("%char n && has_char ")"%char n then
          let clean_name := py_strip (paren_removed n) in
          if nonempty clean_name then [name] ++ [S_ clean_name] else [name]
        else [name]) ->
  In x (Strict.extract_company_aliases name).
Proof.
  intros H. unfold Strict.extract_company_aliases. cbv zeta in *.
  apply nodup_In. apply in_if_snoc, in_if_snoc, in_if_if_snoc. exact H.
Qed.

Lemma ext_aliases_incl name x :
  In x (let n := L name in
        if has_char "("%char n && has_char ")"%char n then
          let clean_name := py_strip (paren_removed n) in
          (if nonempty clean_name then [name] ++ [S_ clean_name] else [name])
          ++ map S_ (paren_contents n)
        else [name]) ->
  In x (Ext.extract_company_aliases name).
Proof.
  intros H. unfold Ext.extract_company_aliases. cbv zeta in *.
  apply nodup_In. apply in_if_snoc, in_if_snoc, in_if_if_snoc. exact H.
Qed.

Lemma paren_scan_contents_parens (s : chars) :
  forall acc c, In c (snd (paren_scan acc s)) ->
  In ")"%char s /\ (acc <> None \/ In "("%char s).
Proof.
  induction s as [|x s IH]; intros acc c H.
  - destruct acc; contradiction.
  - destruct acc as [a|]; cbn [paren_scan] in H.
    + destruct (Ascii.eqb_spec x ")"%char) as [->|Hx].
      * split; [left; reflexivity|left; discriminate].
      * destruct (IH _ _ H) as [H1 _]. split; [right; exact H1|left; discriminate].
    + destruct (Ascii.eqb_spec x "("%char) as [->|Hx].
      * destruct (IH _ _ H) as [H1 _]. split; [right; exact H1|right; left; reflexivity].
      * destruct (paren_scan None s) as [k cs] eqn:E. cbn [snd] in H.
        assert (H' : In c (snd (paren_scan None s))) by (rewrite E; exact H).
        destruct (IH _ _ H') as [H1 [H2|H2]]; [congruence|].
        split; [right; exact H1|right; right; exact H2].
Qed.

Lemma segment_scan (a c b : chars) :
  parens_closed a -> c <> [] -> ~ In ")"%char c ->
  paren_removed (a ++ "("%char :: c ++ ")"%char :: b) = paren_removed a ++ paren_removed b /\
  paren_contents (a ++ "("%char :: c ++ ")"%char :: b) = paren_contents a ++ c :: paren_contents b.
Proof.
  intros Ha Hc Hc'. unfold paren_removed, paren_contents.
  rewrite paren_scan_closed_app by exact Ha. cbn [fst snd].
  rewrite paren_scan_segment by exact Hc'.
  destruct c as [|x c]; [congruence|].
  destruct (paren_scan None b). split; reflexivity.
Qed.

Lemma in_snoc_inv {A} (x y : A) (l : list A) :
  In x (l ++ [y]) -> In x l \/ x = y.
Proof. intros H. apply in_app_or in H as [H|[H|[]]]; [left|right]; auto. Qed.

(** C7, counterexample: [mapping_script.py] never adds the contents of a
    parenthetical segment ("Probe Gold (PGX)" has no alias "PGX"), and
    [mapping_script2.py] takes the text from an opening parenthesis to the
    first closing one, so for the nested "A (B (C) D)" neither "C" nor
    "B (C) D" is an alias. *)
Lemma alias_contents_missing :
  Strict.extract_company_aliases "Probe Gold (PGX)" = ["Probe Gold (PGX)"; "Probe Gold"; "PG("] /\
  ~ In "PGX" (Strict.extract_company_aliases "Probe Gold (PGX)") /\
  Ext.extract_company_aliases "A (B (C) D)" = ["A (B (C) D)"; "A  D)"; "B (C"; "AD"] /\
  ~ In "C" (Ext.extract_company_aliases "A (B (C) D)") /\
  ~ In "B (C) D" (Ext.extract_company_aliases "A (B (C) D)").
Proof.
  split; [vm_compute; reflexivity|]. split.
  { vm_compute. intros H. repeat destruct H as [H|H]; try discriminate H. exact H. }
  split; [vm_compute; reflexivity|]. split.
  { vm_compute. intros H. repeat destruct H as [H|H]; try discriminate H. exact H. }
  { vm_compute. intros H. repeat destruct H as [H|H]; try discriminate H. exact H. }
Qed.

(** C7 (amended): both alias lists contain the name itself.  When the name
    has a [(] and a [)], both contain the name with every match of
    [\([^)]+\)] removed, stripped, if that is non-empty; [paren_removed] and
    [paren_contents] treat a match after a prefix [a] whose parentheses are
    closed inside [a] as a removed segment and as one captured content, in
    scanning order.  The [mapping_script2.py] aliases contain every captured
    content, in particular [c] for a name [a ++ "(" ++ c ++ ")" ++ b] with
    [c] non-empty and free of [")"]; when [a] and [b] have no [(], both
    scripts contain [a ++ b] stripped, if that is non-empty.  Every
    [mapping_script.py] alias is the name, the name with the matches
    removed, the initials, or one of the [&]/[ and ] variants: it adds no
    segment contents. *)
Theorem alias_segment_contents :
  (forall name, In name (Strict.extract_company_aliases name) /\
                In name (Ext.extract_company_aliases name)) /\
  (forall a c b,
     parens_closed a -> c <> [] -> ~ In ")"%char c ->
     paren_removed (a ++ "("%char :: c ++ ")"%char :: b) = paren_removed a ++ paren_removed b /\
     paren_contents (a ++ "("%char :: c ++ ")"%char :: b) = paren_contents a ++ c :: paren_contents b) /\
  (forall name,
     has_char "("%char (L name) && has_char ")"%char (L name) = true ->
     py_strip (paren_removed (L name)) <> [] ->
     In (S_ (py_strip (paren_removed (L name)))) (Strict.extract_company_aliases name) /\
     In (S_ (py_strip (paren_removed (L name)))) (Ext.extract_company_aliases name)) /\
  (forall name c, In c (paren_contents (L name)) ->
     In (S_ c) (Ext.extract_company_aliases name)) /\
  (forall name a c b,
     L name = a ++ "("%char :: c ++ ")"%char :: b ->
     parens_closed a -> c <> [] -> ~ In ")"%char c ->
     In (S_ c) (Ext.extract_company_aliases name)) /\
  (forall name a c b,
     L name = a ++ "("%char :: c ++ ")"%char :: b ->
     ~ In "("%char a -> ~ In "("%char b -> c <> [] -> ~ In ")"%char c ->
     py_strip (a ++ b) <> [] ->
     In (S_ (py_strip (a ++ b))) (Strict.extract_company_aliases name) /\
     In (S_ (py_strip (a ++ b))) (Ext.extract_company_aliases name)) /\
  (forall name x,
     In x (Strict.extract_company_aliases name) ->
     let n := L name in
     x = name \/
     x = S_ (py_strip (paren_removed n)) \/
     x = S_ (flat_map (fun w => match w with c :: _ => [upper_char c] | [] => [] end) (py_split n)) \/
     x = S_ (py_replace (L "&") (L "and") n) \/
     x = S_ (py_replace (L " and ") (L " & ") n)).
Proof.
  split; [|split; [|split; [|split; [|split; [|split]]]]].
  - intros name. split.
    + apply strict_aliases_incl. cbv zeta.
      destruct (_ && _); [destruct (nonempty _)|]; left; reflexivity.
    + apply ext_aliases_incl. cbv zeta.
      destruct (_ && _); [|left; reflexivity].
      apply in_or_app. left. destruct (nonempty _); left; reflexivity.
  - exact segment_scan.
  - intros name Hp Hs.
    assert (Hne : nonempty (py_strip (paren_removed (L name))) = true)
      by (destruct (py_strip (paren_removed (L name))); [congruence|reflexivity]).
    split.
    + apply strict_aliases_incl. cbv zeta. rewrite Hp, Hne. right. left. reflexivity.
    + apply ext_aliases_incl. cbv zeta. rewrite Hp, Hne.
      apply in_or_app. left. right. left. reflexivity.
  - intros name c H.
    destruct (paren_scan_contents_parens _ _ _ H) as [H1 [H2|H2]]; [congruence|].
    apply ext_aliases_incl. cbv zeta. rewrite (has_char_In _ _ H2), (has_char_In _ _ H1).
    cbv iota. apply in_or_app. right. apply in_map. exact H.
  - intros name a c b HL Ha Hc Hc'.
    apply ext_aliases_incl. cbv zeta. rewrite HL, segment_has_parens.
    apply in_or_app. right. apply in_map. apply segment_contents; assumption.
  - intros name a c b HL Ha Hb Hc Hc' Hs.
    assert (Hne : nonempty (py_strip (a ++ b)) = true)
      by (destruct (py_strip (a ++ b)); [congruence|reflexivity]).
    split.
    + apply strict_aliases_incl. cbv zeta. rewrite HL, segment_has_parens.
      rewrite segment_removed by assumption. rewrite Hne.
      right. left. reflexivity.
    + apply ext_aliases_incl. cbv zeta. rewrite HL, segment_has_parens.
      rewrite segment_removed by assumption. rewrite Hne.
      apply in_or_app. left. right. left. reflexivity.
  - intros name x H. unfold Strict.extract_company_aliases in H. cbv zeta in *.
    apply nodup_In in H.
    repeat match type of H with
    | In _ (if ?b then _ else _) => destruct b
    | In _ (_ ++ [_]) => apply in_snoc_inv in H as [H|H]
    | In _ [_] => destruct H as [H|[]]
    end.
  all: subst x; lazymatch goal with
    | |- ?y = ?y \/ _ => left; reflexivity
    | |- _ \/ ?y = ?y \/ _ => right; left; reflexivity
    | |- _ \/ _ \/ ?y = ?y \/ _ => right; right; left; reflexivity
    | |- _ \/ _ \/ _ \/ ?y = ?y \/ _ => right; right; right; left; reflexivity
    | |- _ \/ _ \/ _ \/ _ \/ ?y = ?y => right; right; right; right; reflexivity
    end.
Qed.

Lemma alias_segment_contents_witness :
  In "PGX" (Ext.extract_company_aliases "Probe Gold (PGX)") /\
  In "B (C" (Ext.extract_company_aliases "A (B (C) D)") /\
  In "A  D)" (Strict.extract_company_aliases "A (B (C) D)") /\
  In "Probe Gold" (Strict.extract_company_aliases "Probe Gold (PGX)") /\
  In "Probe Gold" (Ext.extract_company_aliases "Probe Gold (PGX)") /\
  paren_contents (L "(X) and (Y)") = [L "X"; L "Y"] /\
  (let n := L "Probe Gold (PGX)" in
   "PG(" = "Probe Gold (PGX)" \/
   "PG(" = S_ (py_strip (paren_removed n)) \/
   "PG(" = S_ (flat_map (fun w => match w with c :: _ => [upper_char c] | [] => [] end) (py_split n)) \/
   "PG(" = S_ (py_replace (L "&") (L "and") n) \/
   "PG(" = S_ (py_replace (L " and ") (L " & ") n)).
Proof.
  destruct alias_segment_contents as (_ & H2 & H3 & H4 & H5 & H6 & H7).
  split; [|split; [|split; [|split; [|split; [|split]]]]].
  - apply (H5 "Probe Gold (PGX)" (L "Probe Gold ") (L "PGX") []).
    + reflexivity.
    + apply no_open_closed. vm_compute. intros H. repeat destruct H as [H|H]; try discriminate H; exact H.
    + discriminate.
    + vm_compute. intros H. repeat destruct H as [H|H]; try discriminate H; exact H.
  - apply (H4 "A (B (C) D)" (L "B (C")). vm_compute. left. reflexivity.
  - assert (E : S_ (py_strip (paren_removed (L "A (B (C) D)"))) = "A  D)") by (vm_compute; reflexivity).
    rewrite <- E. refine (proj1 (H3 "A (B (C) D)" _ _)).
    + vm_compute. reflexivity.
    + vm_compute. discriminate.
  - assert (E : S_ (py_strip (L "Probe Gold " ++ [])) = "Probe Gold") by (vm_compute; reflexivity).
    rewrite <- E. refine (proj1 (H6 "Probe Gold (PGX)" (L "Probe Gold ") (L "PGX") [] _ _ _ _ _ _)).
    + reflexivity.
    + vm_compute. intros H. repeat destruct H as [H|H]; try discriminate H; exact H.
    + intros [].
    + discriminate.
    + vm_compute. intros H. repeat destruct H as [H|H]; try discriminate H; exact H.
    + vm_compute. discriminate.
  - assert (E : S_ (py_strip (paren_removed (L "Probe Gold (PGX)"))) = "Probe Gold") by (vm_compute; reflexivity).
    rewrite <- E. refine (proj2 (H3 "Probe Gold (PGX)" _ _)).
    + vm_compute. reflexivity.
    + vm_compute. discriminate.
  - pose proof (proj2 (H2 [] (L "X") (L " and (Y)") (no_open_closed [] (fun H => H))
                     ltac:(discriminate)
                     ltac:(vm_compute; intros H; repeat destruct H as [H|H]; try discriminate H; exact H))) as E.
    exact E.
  - exact (H7 "Probe Gold (PGX)" "PG(" ltac:(vm_compute; right; right; left; reflexivity)).
Defined.

(** ** Fetching, indexing, matching and running, beyond the claims *)

Lemma dict_get_set_same {V} (k : string) (v : V) d :
  dict_get String.eqb k (dict_set String.eqb k v d) = Some v.
Proof.
  induction d as [|[k0 v0] d IH]; simpl.
  - rewrite String.eqb_refl. reflexivity.
  - destruct (String.eqb_spec k k0) as [->|Hne]; simpl.
    + rewrite String.eqb_refl. reflexivity.
    + destruct (String.eqb_spec k k0); [congruence|exact IH].
Qed.

Lemma dict_set_length {V} (k : string) (v : V) d :
  (1 <= length (dict_set String.eqb k v d) <= S (length d))%nat.
Proof.
  induction d as [|[k0 v0] d IH]; simpl; [lia|].
  destruct (String.eqb k k0); simpl; lia.
Qed.


Lemma mod50_big n : (1 <= n)%nat -> Nat.modulo n 50 = 0%nat -> (50 <= n)%nat.
Proof.
  intros H1 H2. destruct (Nat.lt_ge_cases n 50) as [Hl|Hg]; [|exact Hg].
  rewrite Nat.mod_small in H2 by exact Hl. lia.
Qed.

Ltac fetch_step_tac :=
  repeat match goal with
  | |- context [Nat.eqb (Nat.modulo ?n 50) 0] =>
      let E := fresh "E" in destruct (Nat.eqb (Nat.modulo n 50) 0) eqn:E
  end;
  cbn [fst snd cache cache_file checkpoint checkpoint_file output_file fetch_log
       set_cache set_cache_file log_fetch save_cache];
  repeat split;
  repeat match goal with
  | |- forall k, k <> _ -> _ => let k := fresh "k" in let Hk := fresh "Hk" in
      intros k Hk; rewrite ?dict_get_set_other by exact Hk; reflexivity
  | |- context [dict_get String.eqb ?k (dict_set String.eqb ?k _ _)] => rewrite dict_get_set_same
  | E : Nat.eqb _ 0 = true |- _ => apply Nat.eqb_eq in E
  end;
  try reflexivity;
  try (apply dict_set_length);
  try (left; reflexivity);
  try (right; apply mod50_big; [apply dict_set_length|assumption]);
  try assumption; try lia.

Lemma strict_fetch_cached site gid w v :
  dict_get String.eqb (gs_cache_key gid) (cache w) = Some v ->
  Strict.fetch_company_by_id site gid w = (v, w).
Proof. intros H. unfold Strict.fetch_company_by_id. cbv zeta. unfold gs_cache_key in H. rewrite H. reflexivity. Qed.

Lemma ext_fetch_cached site gid w v :
  dict_get String.eqb (gs_cache_key gid) (cache w) = Some v ->
  Ext.fetch_company_by_id site gid w = (v, w).
Proof. intros H. unfold Ext.fetch_company_by_id. cbv zeta. unfold gs_cache_key in H. rewrite H. reflexivity. Qed.

Lemma strict_fetch_step site gid w :
  dict_get String.eqb (gs_cache_key gid) (cache w) = None ->
  let r := Strict.fetch_company_by_id site gid w in
  fst r = strict_page_result site gid /\
  fetch_log (snd r) = fetch_log w ++ [gid] /\
  same_matching_files w (snd r) /\
  (forall k, k <> gs_cache_key gid ->
     dict_get String.eqb k (cache (snd r)) = dict_get String.eqb k (cache w)) /\
  dict_get String.eqb (gs_cache_key gid) (cache (snd r)) =
    match site gid with RequestFailed => None | _ => Some (fst r) end /\
  (length (cache (snd r)) <= S (length (cache w)))%nat /\
  (cache_file (snd r) = cache_file w \/ (50 <= length (cache (snd r)))%nat).
Proof.
  intros H. unfold Strict.fetch_company_by_id, strict_page_result, same_matching_files.
  cbv zeta. unfold gs_cache_key in *. rewrite H.
  destruct (site gid) as [| |[n|] t e]; cbn [fst snd].
  all: try destruct (truthy (Some n)).
  all: fetch_step_tac.
Qed.

Lemma ext_fetch_step site gid w :
  dict_get String.eqb (gs_cache_key gid) (cache w) = None ->
  let r := Ext.fetch_company_by_id site gid w in
  fst r = ext_page_result site gid /\
  fetch_log (snd r) = fetch_log w ++ [gid] /\
  same_matching_files w (snd r) /\
  (forall k, k <> gs_cache_key gid ->
     dict_get String.eqb k (cache (snd r)) = dict_get String.eqb k (cache w)) /\
  dict_get String.eqb (gs_cache_key gid) (cache (snd r)) =
    match site gid with RequestFailed => None | _ => Some (fst r) end /\
  (length (cache (snd r)) <= S (length (cache w)))%nat /\
  (cache_file (snd r) = cache_file w \/ (50 <= length (cache (snd r)))%nat).
Proof.
  intros H. unfold Ext.fetch_company_by_id, ext_page_result, same_matching_files.
  cbv zeta. unfold gs_cache_key in *. rewrite H.
  destruct (site gid) as [| |[n|] t e]; cbn [fst snd].
  all: try destruct (truthy (Some n)).
  all: fetch_step_tac.
Qed.








(** X1: [fetch_company_by_id] answers a second request for an ID from its
    cache: unless the site's request failed, fetching the same ID again on
    the resulting state returns the same result and state, in both scripts.
    A failed request is not cached: an uncached ID whose request fails
    gives [None] and is requested again by the next call. *)
Theorem fetch_repeat_uses_cache :
  (forall site gid w, site gid <> RequestFailed ->
     Strict.fetch_company_by_id site gid (snd (Strict.fetch_company_by_id site gid w)) =
     Strict.fetch_company_by_id site gid w) /\
  (forall site gid w, site gid <> RequestFailed ->
     Ext.fetch_company_by_id site gid (snd (Ext.fetch_company_by_id site gid w)) =
     Ext.fetch_company_by_id site gid w) /\
  (forall site gid w,
     dict_get String.eqb (gs_cache_key gid) (cache w) = None -> site gid = RequestFailed ->
     fst (Strict.fetch_company_by_id site gid w) = None /\
     fetch_log (snd (Strict.fetch_company_by_id site gid (snd (Strict.fetch_company_by_id site gid w)))) =
       fetch_log w ++ [gid; gid]) /\
  (forall site gid w,
     dict_get String.eqb (gs_cache_key gid) (cache w) = None -> site gid = RequestFailed ->
     fst (Ext.fetch_company_by_id site gid w) = None /\
     fetch_log (snd (Ext.fetch_company_by_id site gid (snd (Ext.fetch_company_by_id site gid w)))) =
       fetch_log w ++ [gid; gid]).
Proof.
  split; [|split; [|split]].
  - intros site gid w Hf.
    destruct (dict_get String.eqb (gs_cache_key gid) (cache w)) as [v|] eqn:Hc.
    + rewrite (strict_fetch_cached site gid w v Hc). cbn [snd].
      exact (strict_fetch_cached site gid w v Hc).
    + pose proof (strict_fetch_step site gid w Hc) as (_ & _ & _ & _ & H5 & _).
      cbn zeta in H5. destruct (site gid); try congruence;
        rewrite (strict_fetch_cached _ _ _ _ H5); symmetry; apply surjective_pairing.
  - intros site gid w Hf.
    destruct (dict_get String.eqb (gs_cache_key gid) (cache w)) as [v|] eqn:Hc.
    + rewrite (ext_fetch_cached site gid w v Hc). cbn [snd].
      exact (ext_fetch_cached site gid w v Hc).
    + pose proof (ext_fetch_step site gid w Hc) as (_ & _ & _ & _ & H5 & _).
      cbn zeta in H5. destruct (site gid); try congruence;
        rewrite (ext_fetch_cached _ _ _ _ H5); symmetry; apply surjective_pairing.
  - intros site gid w Hc Hf.
    pose proof (strict_fetch_step site gid w Hc) as (H1 & H2 & _ & _ & H5 & _).
    cbn zeta in *. rewrite Hf in H5.
    pose proof (strict_fetch_step site gid _ H5) as (_ & H2' & _).
    split; [rewrite H1; unfold strict_page_result; rewrite Hf; reflexivity|].
    rewrite H2', H2, <- app_assoc. reflexivity.
  - intros site gid w Hc Hf.
    pose proof (ext_fetch_step site gid w Hc) as (H1 & H2 & _ & _ & H5 & _).
    cbn zeta in *. rewrite Hf in H5.
    pose proof (ext_fetch_step site gid _ H5) as (_ & H2' & _).
    split; [rewrite H1; unfold ext_page_result; rewrite Hf; reflexivity|].
    rewrite H2', H2, <- app_assoc. reflexivity.
Qed.


Lemma truthy_Some_false s : truthy (Some s) = false <-> s = "".
Proof. destruct s; simpl; split; congruence. Qed.

Lemma keys_get {V} (k : string) (g : V) (ks : list string) (d : list (string * V)) :
  dict_get String.eqb k (fold_left (fun d k' => dict_set String.eqb k' g d) ks d) =
  if existsb (String.eqb k) ks then Some g else dict_get String.eqb k d.
Proof.
  revert d. induction ks as [|k' ks IH]; intros d; [reflexivity|].
  cbn [fold_left existsb]. rewrite IH.
  destruct (String.eqb_spec k k') as [->|Hne]; cbn [orb].
  - rewrite dict_get_set_same. destruct (existsb _ ks); reflexivity.
  - rewrite dict_get_set_other by exact Hne. reflexivity.
Qed.

Lemma index_sound kfs gs d k g :
  dict_get String.eqb k (fold_left (index_step kfs) gs d) = Some g ->
  dict_get String.eqb k d = Some g \/ (In g gs /\ In k (kfs g)).
Proof.
  revert d. induction gs as [|g0 gs IH]; intros d H; [left; exact H|].
  cbn [fold_left] in H. destruct (IH _ H) as [H1|[H1 H2]].
  - unfold index_step in H1. rewrite keys_get in H1.
    destruct (existsb (String.eqb k) (kfs g0)) eqn:E.
    + injection H1 as <-. right. split; [left; reflexivity|].
      apply existsb_exists in E as (k' & Hk' & Ek). apply String.eqb_eq in Ek. subst. exact Hk'.
    + left. exact H1.
  - right. split; [right; exact H1|exact H2].
Qed.

Lemma index_untouched kfs gs d k :
  (forall g', In g' gs -> ~ In k (kfs g')) ->
  dict_get String.eqb k (fold_left (index_step kfs) gs d) = dict_get String.eqb k d.
Proof.
  revert d. induction gs as [|g0 gs IH]; intros d H; [reflexivity|].
  cbn [fold_left]. rewrite IH by (intros g' Hg'; apply H; right; exact Hg').
  unfold index_step. rewrite keys_get.
  destruct (existsb (String.eqb k) (kfs g0)) eqn:E; [|reflexivity].
  exfalso. apply existsb_exists in E as (k' & Hk' & Ek). apply String.eqb_eq in Ek. subst.
  exact (H g0 (or_introl eq_refl) Hk').
Qed.

Lemma index_last kfs pre g post d k :
  In k (kfs g) -> (forall g', In g' post -> ~ In k (kfs g')) ->
  dict_get String.eqb k (fold_left (index_step kfs) (pre ++ g :: post) d) = Some g.
Proof.
  intros Hk Hp. rewrite fold_left_app. cbn [fold_left].
  rewrite index_untouched by exact Hp. unfold index_step at 1. rewrite keys_get.
  replace (existsb (String.eqb k) (kfs g)) with true; [reflexivity|].
  symmetry. apply existsb_exists. exists k. split; [exact Hk|apply String.eqb_refl].
Qed.

Lemma alias_fold_keys (nn : option string -> string) (g : Goldstock.t) (xs : list string) (d : list (string * Goldstock.t)) :
  fold_left (fun d alias =>
       let normalized_alias := nn (Some alias) in
       if truthy (Some normalized_alias) then dict_set String.eqb normalized_alias g d else d) xs d =
  fold_left (fun d k => dict_set String.eqb k g d)
    (filter (fun k => truthy (Some k)) (map (fun s => nn (Some s)) xs)) d.
Proof.
  revert d. induction xs as [|x xs IH]; intros d; [reflexivity|].
  cbn [fold_left map filter]. destruct (truthy (Some (nn (Some x)))); cbn [fold_left]; apply IH.
Qed.

Lemma strict_build_indexes_folds gs a b :
  fold_left
    (fun '(by_ticker, by_name) gs =>
       let by_ticker :=
         if truthy (Goldstock.ticker gs) then
           match Strict.normalize_ticker (Goldstock.ticker gs) with
           | Some nt => if truthy (Some nt) then dict_set String.eqb nt gs by_ticker else by_ticker
           | None => by_ticker
           end
         else by_ticker in
       let normalized := Strict.normalize_name (Some (Goldstock.company_name gs)) in
       let by_name :=
         if truthy (Some normalized) then dict_set String.eqb normalized gs by_name else by_name in
       let by_name :=
         fold_left
           (fun d alias =>
              let normalized_alias := Strict.normalize_name (Some alias) in
              if truthy (Some normalized_alias) then dict_set String.eqb normalized_alias gs d else d)
           (Goldstock.aliases gs) by_name in
       (by_ticker, by_name)) gs (a, b) =
  (fold_left (index_step strict_ticker_keys) gs a,
   fold_left (index_step (name_keys Strict.normalize_name)) gs b).
Proof.
  revert a b. induction gs as [|g gs IH]; intros a b; [reflexivity|].
  cbn [fold_left]. rewrite IH. f_equal.
  - f_equal. unfold index_step, strict_ticker_keys.
    destruct (truthy (Goldstock.ticker g)); [|reflexivity].
    destruct (Strict.normalize_ticker (Goldstock.ticker g)); [|reflexivity].
    destruct (truthy (Some s)); reflexivity.
  - f_equal. unfold index_step, name_keys. cbn [map filter].
    destruct (truthy (Some (Strict.normalize_name (Some (Goldstock.company_name g))))); cbn [fold_left];
      apply alias_fold_keys.
Qed.

Lemma strict_ticker_index_fold gs :
  fst (Strict.build_indexes gs) = fold_left (index_step strict_ticker_keys) gs [].
Proof. unfold Strict.build_indexes. rewrite strict_build_indexes_folds. reflexivity. Qed.

Lemma strict_name_index_fold gs :
  snd (Strict.build_indexes gs) = fold_left (index_step (name_keys Strict.normalize_name)) gs [].
Proof. unfold Strict.build_indexes. rewrite strict_build_indexes_folds. reflexivity. Qed.

Lemma ext_ticker_index_fold gs :
  Ext.build_ticker_index gs = fold_left (index_step ext_ticker_keys) gs [].
Proof.
  unfold Ext.build_ticker_index. generalize (@nil (string * Goldstock.t)) as d.
  induction gs as [|g gs IH]; intros d; [reflexivity|]. cbn [fold_left]. rewrite IH. f_equal.
  unfold index_step, ext_ticker_keys.
  destruct (truthy (Goldstock.ticker g)); [|reflexivity].
  destruct (Ext.normalize_ticker (Goldstock.ticker g)); [|reflexivity].
  destruct (truthy (Some s)); reflexivity.
Qed.

Lemma ext_name_index_fold gs :
  Ext.build_name_index gs = fold_left (index_step (name_keys Ext.normalize_name)) gs [].
Proof.
  unfold Ext.build_name_index. generalize (@nil (string * Goldstock.t)) as d.
  induction gs as [|g gs IH]; intros d; [reflexivity|]. cbn [fold_left]. rewrite IH. f_equal.
  unfold index_step, name_keys. cbn [map filter].
  destruct (truthy (Some (Ext.normalize_name (Some (Goldstock.company_name g))))); cbn [fold_left];
    apply alias_fold_keys.
Qed.

Lemma strict_ticker_keys_iff g k :
  In k (strict_ticker_keys g) <-> Strict.normalize_ticker (Goldstock.ticker g) = Some k /\ k <> "".
Proof.
  unfold strict_ticker_keys. destruct (truthy (Goldstock.ticker g)) eqn:T.
  - destruct (Strict.normalize_ticker (Goldstock.ticker g)) as [nt|].
    + destruct (truthy (Some nt)) eqn:T'.
      * split; [intros [<-|[]]|intros [E _]; injection E as <-; left; reflexivity].
        split; [reflexivity|]. intros ->. discriminate T'.
      * apply truthy_Some_false in T'. subst. split; [intros []|].
        intros [E Hk]. injection E as <-. contradiction.
    + split; [intros []|intros [E _]; discriminate E].
  - unfold Strict.normalize_ticker. rewrite T. cbn. split; [intros []|intros [E _]; discriminate E].
Qed.

Lemma ext_ticker_keys_iff g k :
  In k (ext_ticker_keys g) <-> Ext.normalize_ticker (Goldstock.ticker g) = Some k /\ k <> "".
Proof.
  unfold ext_ticker_keys. destruct (truthy (Goldstock.ticker g)) eqn:T.
  - destruct (Ext.normalize_ticker (Goldstock.ticker g)) as [nt|].
    + destruct (truthy (Some nt)) eqn:T'.
      * split; [intros [<-|[]]|intros [E _]; injection E as <-; left; reflexivity].
        split; [reflexivity|]. intros ->. discriminate T'.
      * apply truthy_Some_false in T'. subst. split; [intros []|].
        intros [E Hk]. injection E as <-. contradiction.
    + split; [intros []|intros [E _]; discriminate E].
  - unfold Ext.normalize_ticker. rewrite T. cbn. split; [intros []|intros [E _]; discriminate E].
Qed.

Lemma name_keys_iff nn g k :
  In k (name_keys nn g) <->
  In k (map (fun s => nn (Some s)) (Goldstock.company_name g :: Goldstock.aliases g)) /\ k <> "".
Proof.
  unfold name_keys. rewrite filter_In. split.
  - intros [H1 H2]. split; [exact H1|]. intros ->. discriminate H2.
  - intros [H1 H2]. split; [exact H1|]. destruct k; [contradiction|reflexivity].
Qed.

Lemma strict_ticker_sound gs k g :
  dict_get String.eqb k (fst (Strict.build_indexes gs)) = Some g ->
  In g gs /\ k <> "" /\ Strict.normalize_ticker (Goldstock.ticker g) = Some k.
Proof.
  intros H. rewrite strict_ticker_index_fold in H.
  destruct (index_sound _ _ _ _ _ H) as [E|[H1 H2]]; [discriminate E|].
  apply strict_ticker_keys_iff in H2 as [H2 H3]. auto.
Qed.

Lemma ext_ticker_sound gs k g :
  dict_get String.eqb k (Ext.build_ticker_index gs) = Some g ->
  In g gs /\ k <> "" /\ Ext.normalize_ticker (Goldstock.ticker g) = Some k.
Proof.
  intros H. rewrite ext_ticker_index_fold in H.
  destruct (index_sound _ _ _ _ _ H) as [E|[H1 H2]]; [discriminate E|].
  apply ext_ticker_keys_iff in H2 as [H2 H3]. auto.
Qed.

Lemma strict_name_sound gs k g :
  dict_get String.eqb k (snd (Strict.build_indexes gs)) = Some g ->
  In g gs /\ k <> "" /\
  In k (map (fun s => Strict.normalize_name (Some s)) (Goldstock.company_name g :: Goldstock.aliases g)).
Proof.
  intros H. rewrite strict_name_index_fold in H.
  destruct (index_sound _ _ _ _ _ H) as [E|[H1 H2]]; [discriminate E|].
  apply name_keys_iff in H2 as [H2 H3]. auto.
Qed.

Lemma ext_name_sound gs k g :
  dict_get String.eqb k (Ext.build_name_index gs) = Some g ->
  In g gs /\ k <> "" /\
  In k (map (fun s => Ext.normalize_name (Some s)) (Goldstock.company_name g :: Goldstock.aliases g)).
Proof.
  intros H. rewrite ext_name_index_fold in H.
  destruct (index_sound _ _ _ _ _ H) as [E|[H1 H2]]; [discriminate E|].
  apply name_keys_iff in H2 as [H2 H3]. auto.
Qed.

(** X3: the ticker index of [perform_matching] maps a key only to a listed
    company whose normalized ticker is that non-empty key; and a company
    whose normalized ticker is [k] is the one found under [k] when no later
    company normalizes to [k] (the last one wins), in both scripts. *)
Theorem ticker_index_sound_last_wins :
  (forall gs k g, dict_get String.eqb k (fst (Strict.build_indexes gs)) = Some g ->
     In g gs /\ k <> "" /\ Strict.normalize_ticker (Goldstock.ticker g) = Some k) /\
  (forall pre g post k,
     Strict.normalize_ticker (Goldstock.ticker g) = Some k -> k <> "" ->
     (forall g', In g' post -> Strict.normalize_ticker (Goldstock.ticker g') <> Some k) ->
     dict_get String.eqb k (fst (Strict.build_indexes (pre ++ g :: post))) = Some g) /\
  (forall gs k g, dict_get String.eqb k (Ext.build_ticker_index gs) = Some g ->
     In g gs /\ k <> "" /\ Ext.normalize_ticker (Goldstock.ticker g) = Some k) /\
  (forall pre g post k,
     Ext.normalize_ticker (Goldstock.ticker g) = Some k -> k <> "" ->
     (forall g', In g' post -> Ext.normalize_ticker (Goldstock.ticker g') <> Some k) ->
     dict_get String.eqb k (Ext.build_ticker_index (pre ++ g :: post)) = Some g).
Proof.
  split; [|split; [|split]].
  - exact strict_ticker_sound.
  - intros pre g post k H1 H2 H3. rewrite strict_ticker_index_fold.
    apply index_last; [apply strict_ticker_keys_iff; auto|].
    intros g' Hg' Hk. apply strict_ticker_keys_iff in Hk as [Hk _]. exact (H3 g' Hg' Hk).
  - exact ext_ticker_sound.
  - intros pre g post k H1 H2 H3. rewrite ext_ticker_index_fold.
    apply index_last; [apply ext_ticker_keys_iff; auto|].
    intros g' Hg' Hk. apply ext_ticker_keys_iff in Hk as [Hk _]. exact (H3 g' Hg' Hk).
Qed.

(** X4: the name index of [perform_matching] maps a key only to a listed
    company whose normalized name or alias is that non-empty key; and a
    company with [k] among its normalized name and aliases is the one found
    under [k] when no later company has [k] among them, in both scripts. *)
Theorem name_index_sound_last_wins :
  (forall gs k g, dict_get String.eqb k (snd (Strict.build_indexes gs)) = Some g ->
     In g gs /\ k <> "" /\
     In k (map (fun s => Strict.normalize_name (Some s)) (Goldstock.company_name g :: Goldstock.aliases g))) /\
  (forall pre g post k,
     In k (map (fun s => Strict.normalize_name (Some s)) (Goldstock.company_name g :: Goldstock.aliases g)) ->
     k <> "" ->
     (forall g', In g' post ->
        ~ In k (map (fun s => Strict.normalize_name (Some s)) (Goldstock.company_name g' :: Goldstock.aliases g'))) ->
     dict_get String.eqb k (snd (Strict.build_indexes (pre ++ g :: post))) = Some g) /\
  (forall gs k g, dict_get String.eqb k (Ext.build_name_index gs) = Some g ->
     In g gs /\ k <> "" /\
     In k (map (fun s => Ext.normalize_name (Some s)) (Goldstock.company_name g :: Goldstock.aliases g))) /\
  (forall pre g post k,
     In k (map (fun s => Ext.normalize_name (Some s)) (Goldstock.company_name g :: Goldstock.aliases g)) ->
     k <> "" ->
     (forall g', In g' post ->
        ~ In k (map (fun s => Ext.normalize_name (Some s)) (Goldstock.company_name g' :: Goldstock.aliases g'))) ->
     dict_get String.eqb k (Ext.build_name_index (pre ++ g :: post)) = Some g).
Proof.
  split; [|split; [|split]].
  - exact strict_name_sound.
  - intros pre g post k H1 H2 H3. rewrite strict_name_index_fold.
    apply index_last; [apply name_keys_iff; auto|].
    intros g' Hg' Hk. apply name_keys_iff in Hk as [Hk _]. exact (H3 g' Hg' Hk).
  - exact ext_name_sound.
  - intros pre g post k H1 H2 H3. rewrite ext_name_index_fold.
    apply index_last; [apply name_keys_iff; auto|].
    intros g' Hg' Hk. apply name_keys_iff in Hk as [Hk _]. exact (H3 g' Hg' Hk).
Qed.

Lemma find_pair_In (f : string * Goldstock.t -> bool) gs x g :
  find f (map (fun g => (Goldstock.company_name g, g)) gs) = Some (x, g) ->
  In g gs /\ x = Goldstock.company_name g /\ f (x, g) = true.
Proof.
  intros H. apply find_some in H as [H1 H2].
  apply in_map_iff in H1 as (g' & E & Hg). injection E; intros; subst; auto.
Qed.

Ltac link_hyps :=
  repeat match goal with
  | H : dict_get String.eqb _ (fst (Strict.build_indexes _)) = Some _ |- _ =>
      apply strict_ticker_sound in H; destruct H as (? & ? & ?)
  | H : dict_get String.eqb _ (snd (Strict.build_indexes _)) = Some _ |- _ =>
      apply strict_name_sound in H; destruct H as (? & ? & ?)
  | H : dict_get String.eqb _ (Ext.build_ticker_index _) = Some _ |- _ =>
      apply ext_ticker_sound in H; destruct H as (? & ? & ?)
  | H : dict_get String.eqb _ (Ext.build_name_index _) = Some _ |- _ =>
      apply ext_name_sound in H; destruct H as (? & ? & ?)
  | H : extract_one _ _ _ _ = Some (_, _) |- _ =>
      apply extract_one_some in H; destruct H as (? & ? & ?)
  | H : find _ (map (fun g => (Goldstock.company_name g, g)) _) = Some (_, _) |- _ =>
      apply find_pair_In in H; destruct H as (? & ? & ?)
  | H : String.eqb _ _ = true |- _ => apply String.eqb_eq in H
  | H : Some _ = Some _ |- _ => injection H; clear H; intros
  | H : (_, _) = (_, _) |- _ => injection H; clear H; intros
  end.

Ltac destruct_matches :=
  repeat match goal with
  | |- context [match ?x with _ => _ end] => destruct x eqn:?
  | H : context [match ?x with _ => _ end] |- _ =>
      destruct x eqn:?; cbn iota in H; try discriminate H
  end.

Lemma leb_true_le a b : (a <=? b)%Z = true -> (a <= b)%Z.
Proof. apply Z.leb_le. Qed.

Ltac finish_link :=
  unfold link_justified, links_to; cbn [Mapping.match_method Mapping.company_id
    Mapping.company_name Mapping.tsx_code Mapping.goldstock_id Mapping.goldstock_name
    Mapping.confidence_score Mapping.match_status Ext.l_match Ext.l_confidence Ext.l_status
    Ext.l_goldstock_id Ext.l_goldstock_name Ext.l_match_method];
  repeat (split; [reflexivity|]);
  repeat match goal with
  | H : Z.leb ?a ?b = _ |- context [Z.leb ?a ?b] => rewrite H
  end;
  try solve [repeat split; reflexivity
            | eexists; repeat split; eauto using leb_true_le
            | eexists; eexists; repeat split; eauto].

Lemma strict_match_company_justified sc gs known c :
  link_justified Strict.normalize_ticker Strict.normalize_name 80%Z 90%Z sc gs known c
    (Strict.match_company sc gs known (fst (Strict.build_indexes gs)) (snd (Strict.build_indexes gs)) c).
Proof.
  unfold Strict.match_company, Strict.mk_mapping. cbv zeta.
  destruct_matches; link_hyps; subst; cbn [fst snd] in *.
  all: finish_link.
Qed.

Lemma ext_match_company_justified sc gs known c :
  link_justified Ext.normalize_ticker Ext.normalize_name 70%Z 85%Z sc gs known c
    (Ext.match_company sc gs known (Ext.build_ticker_index gs) (Ext.build_name_index gs) c).
Proof.
  unfold Ext.match_company, Ext.found. cbv zeta.
  destruct_matches; link_hyps; subst; cbn [fst snd] in *.
  all: finish_link.
Qed.

Lemma Forall2_map_r {A B} (P : A -> B -> Prop) (f : A -> B) l :
  (forall x, P x (f x)) -> Forall2 P l (map f l).
Proof. intros H. induction l; constructor; auto. Qed.

(** X5: every mapping [perform_matching] emits belongs to the company at
    the same position, copies its id, name and ticker, and its link is
    justified by its method: a known mapping from the table; an exact ticker
    to a listed company with the same non-empty normalized ticker
    (confidence 100); an exact name to a listed company with the normalized
    company name among its normalized name and aliases (confidence 95); a
    fuzzy name to a listed company, with the score of its normalized name as
    confidence, at least the floor (80 and 70) and status matched from 90
    and 85; otherwise no link and confidence 0.  mapping_script2.py emits
    nothing when the goldstock list is empty. *)
Theorem matching_links_justified :
  (forall sc cs gs known w,
     Forall2 (link_justified Strict.normalize_ticker Strict.normalize_name 80%Z 90%Z sc gs known)
       cs (fst (Strict.perform_matching sc cs gs known w))) /\
  (forall sc cs gs known w, gs <> [] ->
     Forall2 (link_justified Ext.normalize_ticker Ext.normalize_name 70%Z 85%Z sc gs known)
       cs (fst (Ext.perform_matching sc cs gs known w))) /\
  (forall sc cs known w, fst (Ext.perform_matching sc cs [] known w) = []).
Proof.
  split; [|split].
  - intros. rewrite strict_perform_matching_map.
    apply Forall2_map_r. apply strict_match_company_justified.
  - intros sc cs gs known w Hgs. rewrite ext_perform_matching_map by exact Hgs.
    apply Forall2_map_r. apply ext_match_company_justified.
  - intros. apply ext_perform_matching_nil.
Qed.

Lemma saved_run_same_cache ms w0 w1 w2 :
  same_cache w0 w1 -> saved_run ms w1 w2 -> saved_run ms w0 w2.
Proof.
  unfold same_cache, saved_run. intros (A & B & C) (D & E & F & G & H & I).
  repeat split; congruence.
Qed.

Lemma strict_matching_loop_same_cache sc gs known bt bn cs ms w :
  same_cache w (snd (Strict.matching_loop sc gs known bt bn cs ms w)).
Proof.
  revert ms w. induction cs as [|c cs IH]; intros ms w; simpl.
  - repeat split.
  - match goal with |- same_cache w (snd (Strict.matching_loop _ _ _ _ _ _ ?ms' ?w')) =>
      destruct (IH ms' w') as (A & B & C) end.
    destruct (_ =? 0)%nat; repeat split; simpl in *; congruence.
Qed.

Lemma strict_perform_matching_saves sc cs gs known w :
  saved_run (fst (Strict.perform_matching sc cs gs known w)) w
    (snd (Strict.perform_matching sc cs gs known w)).
Proof.
  unfold Strict.perform_matching. destruct (Strict.build_indexes gs) as [bt bn].
  pose proof (strict_matching_loop_same_cache sc gs known bt bn cs [] w) as (A & B & C).
  destruct (Strict.matching_loop sc gs known bt bn cs [] w) as [ms w'] eqn:E. simpl in *.
  repeat split; simpl; congruence.
Qed.

Lemma ext_matching_loop_saves sc gs known bt bn n cs : forall ms i w,
  cs <> [] -> (i + length cs = n)%nat ->
  saved_run (fst (Ext.matching_loop sc gs known bt bn i n cs ms w)) w
    (snd (Ext.matching_loop sc gs known bt bn i n cs ms w)).
Proof.
  induction cs as [|c cs IH]; intros ms i w Hne Hn; [congruence|].
  simpl. destruct cs as [|c' cs'].
  - simpl in Hn. replace (i =? n - 1)%nat with true by (symmetry; apply Nat.eqb_eq; lia).
    rewrite orb_true_r. cbn. repeat split.
  - eapply saved_run_same_cache; [|apply IH; [discriminate | simpl in *; lia]].
    destruct (_ || _); repeat split.
Qed.

Lemma ext_perform_matching_saves sc cs gs known w :
  cs <> [] -> gs <> [] ->
  saved_run (fst (Ext.perform_matching sc cs gs known w)) w
    (snd (Ext.perform_matching sc cs gs known w)).
Proof.
  intros Hcs Hgs. unfold Ext.perform_matching.
  destruct gs; [congruence|]. cbn [null negb].
  apply ext_matching_loop_saves; [exact Hcs | lia].
Qed.

Lemma ext_perform_matching_idle sc cs gs known w :
  cs = [] \/ gs = [] -> Ext.perform_matching sc cs gs known w = ([], w).
Proof.
  intros [-> | ->]; [|reflexivity].
  unfold Ext.perform_matching. destruct (null gs); reflexivity.
Qed.

(** X6: [perform_matching] leaves the table file and the checkpoint (object
    and file) holding exactly the mappings it returns, and does not touch the
    cache, the cache file or the requests.  mapping_script2.py does so when
    there are companies and goldstock records, and otherwise changes
    nothing. *)
Theorem perform_matching_persists :
  (forall sc cs gs known w,
     saved_run (fst (Strict.perform_matching sc cs gs known w)) w
       (snd (Strict.perform_matching sc cs gs known w))) /\
  (forall sc cs gs known w, cs <> [] -> gs <> [] ->
     saved_run (fst (Ext.perform_matching sc cs gs known w)) w
       (snd (Ext.perform_matching sc cs gs known w))) /\
  (forall sc cs gs known w, cs = [] \/ gs = [] ->
     Ext.perform_matching sc cs gs known w = ([], w)).
Proof.
  split; [|split].
  - apply strict_perform_matching_saves.
  - apply ext_perform_matching_saves.
  - apply ext_perform_matching_idle.
Qed.


Lemma null_false_iff {A} (l : list A) : null l = false <-> l <> [].
Proof. destruct l; simpl; split; congruence. Qed.










Lemma strict_load_companies_zero data :
  Strict.load_companies (Some 0%Z) data = Strict.load_companies None data.
Proof. destruct data; reflexivity. Qed.

Lemma ext_load_companies_zero data : Ext.load_companies (Some 0%Z) data = [].
Proof. destruct data; reflexivity. Qed.

(** X11: [--limit 0] loads every company in mapping_script.py ([if limit:]
    treats 0 as no limit), while mapping_script2.py ([is not None]) loads
    none and so exits with status 1 without requesting anything. *)
Theorem limit_zero :
  (forall data, Strict.load_companies (Some 0%Z) data = Strict.load_companies None data) /\
  (forall sc args data site w, limit args = Some 0%Z ->
     let r := Ext.main sc args data site w in
     snd r = sys_exit 1 /\ fetch_log (fst r) = fetch_log w /\ output_file (fst r) = output_file w).
Proof.
  split.
  - apply strict_load_companies_zero.
  - intros sc args data site w Hl. unfold Ext.main. cbv zeta.
    rewrite Hl, ext_load_companies_zero. destruct (clear_cache args); repeat split.
Qed.




Lemma upper_upper c : upper_char (upper_char c) = upper_char c.
Proof. destruct c as [[] [] [] [] [] [] [] []]; reflexivity. Qed.

Lemma upper_eqb_colon c : Ascii.eqb (upper_char c) ":"%char = Ascii.eqb c ":"%char.
Proof. destruct c as [[] [] [] [] [] [] [] []]; reflexivity. Qed.

Lemma upper_eqb_dot c : Ascii.eqb (upper_char c) "."%char = Ascii.eqb c "."%char.
Proof. destruct c as [[] [] [] [] [] [] [] []]; reflexivity. Qed.

Lemma upper_eqb_newline c : Ascii.eqb (upper_char c) "010"%char = Ascii.eqb c "010"%char.
Proof. destruct c as [[] [] [] [] [] [] [] []]; reflexivity. Qed.

Lemma py_upper_idem s : py_upper (py_upper s) = py_upper s.
Proof. induction s as [|c s IH]; simpl; [reflexivity|]. rewrite upper_upper. f_equal. exact IH. Qed.

Lemma ci_prefix_upper a s :
  ci_prefix a (py_upper s) = option_map py_upper (ci_prefix a s).
Proof.
  revert s. induction a as [|x a IH]; intros s; [reflexivity|].
  destruct s as [|y s]; [reflexivity|]. simpl. rewrite upper_upper.
  destruct (Ascii.eqb (upper_char x) (upper_char y)); [apply IH|reflexivity].
Qed.

Lemma at_end_upper r : at_end (py_upper r) = at_end r.
Proof. destruct r as [|c [|d r]]; simpl; [reflexivity| |reflexivity]. apply upper_eqb_newline. Qed.

Lemma match_alts_colon_upper alts s :
  match_alts_colon alts (py_upper s) = option_map py_upper (match_alts_colon alts s).
Proof.
  induction alts as [|a alts IH]; [reflexivity|]. simpl. rewrite ci_prefix_upper.
  destruct (ci_prefix a s) as [[|c r]|]; simpl; try exact IH.
  rewrite upper_eqb_colon. destruct (Ascii.eqb c ":"%char); [reflexivity|exact IH].
Qed.

Lemma sub_prefix_upper alts s : sub_prefix alts (py_upper s) = py_upper (sub_prefix alts s).
Proof.
  unfold sub_prefix. rewrite match_alts_colon_upper.
  destruct (match_alts_colon alts s); reflexivity.
Qed.

Lemma match_alts_end_upper alts s :
  match_alts_end alts (py_upper s) = option_map py_upper (match_alts_end alts s).
Proof.
  induction alts as [|a alts IH]; [reflexivity|]. simpl. rewrite ci_prefix_upper.
  destruct (ci_prefix a s) as [r|]; simpl; [|exact IH].
  rewrite at_end_upper. destruct (at_end r); [reflexivity|exact IH].
Qed.

Lemma match_dot_suffix_upper alts s :
  match_dot_suffix alts (py_upper s) = option_map py_upper (match_dot_suffix alts s).
Proof.
  destruct s as [|c s]; [reflexivity|]. simpl. rewrite upper_eqb_dot.
  destruct (Ascii.eqb c "."%char); [apply match_alts_end_upper|reflexivity].
Qed.

Lemma sub_leftmost_upper (m : chars -> option chars) s :
  (forall x, m (py_upper x) = option_map py_upper (m x)) ->
  sub_leftmost m (py_upper s) = py_upper (sub_leftmost m s).
Proof.
  intros Hm. induction s as [|c s IH]; simpl.
  - pose proof (Hm []) as E0. simpl in E0.
    destruct (m []) as [l|]; [|reflexivity]. simpl in E0. congruence.
  - change (upper_char c :: py_upper s) with (py_upper (c :: s)). rewrite Hm.
    destruct (m (c :: s)); simpl; [reflexivity|]. rewrite IH. reflexivity.
Qed.

Lemma sub_suffix_upper alts s : sub_suffix alts (py_upper s) = py_upper (sub_suffix alts s).
Proof. apply sub_leftmost_upper, match_dot_suffix_upper. Qed.

Lemma remove_punct_upper s : remove_ticker_punct (py_upper s) = py_upper (remove_ticker_punct s).
Proof.
  induction s as [|c s IH]; [reflexivity|]. unfold remove_ticker_punct in *. simpl.
  rewrite punct_upper. destruct (negb (is_ticker_punct c)); simpl; rewrite IH; reflexivity.
Qed.

Lemma ext_ticker_core_upper t :
  let f t := py_upper (py_strip (remove_ticker_punct
               (sub_suffix Ext.exchange_suffixes (sub_prefix Ext.exchange_prefixes t)))) in
  f (py_upper t) = f t.
Proof.
  cbv zeta beta. rewrite sub_prefix_upper, sub_suffix_upper, remove_punct_upper, py_strip_upper,
    py_upper_idem. reflexivity.
Qed.

Lemma truthy_Some_L s : truthy (Some s) = negb (null (L s)).
Proof. destruct s; reflexivity. Qed.

Lemma ext_ticker_case_insensitive s t :
  py_upper (L s) = py_upper (L t) -> Ext.normalize_ticker (Some s) = Ext.normalize_ticker (Some t).
Proof.
  intros H. unfold Ext.normalize_ticker. rewrite !truthy_Some_L.
  assert (Hn : null (L s) = null (L t)).
  { apply (f_equal (@length ascii)) in H. unfold py_upper in H. rewrite !length_map in H.
    destruct (L s), (L t); simpl in *; congruence. }
  rewrite Hn. destruct (negb (negb (null (L t)))); [reflexivity|].
  pose proof (ext_ticker_core_upper (L s)) as A. pose proof (ext_ticker_core_upper (L t)) as B.
  cbv zeta beta in A, B. rewrite <- A, <- B, H. reflexivity.
Qed.

Lemma name_case_insensitive sfx s t :
  py_lower (L s) = py_lower (L t) -> normalize_name_with sfx (Some s) = normalize_name_with sfx (Some t).
Proof.
  intros H. unfold normalize_name_with. rewrite !truthy_Some_L.
  assert (Hn : null (L s) = null (L t)).
  { apply (f_equal (@length ascii)) in H. unfold py_lower in H. rewrite !length_map in H.
    destruct (L s), (L t); simpl in *; congruence. }
  rewrite Hn, H. reflexivity.
Qed.

(** X13: [normalize_name] depends only on the lower-cased name, in both
    scripts; mapping_script2.py's [normalize_ticker] depends only on the
    upper-cased ticker, while mapping_script.py's does not: its [.CN] test
    is case-sensitive, so "a.b.cn" and "A.B.CN" normalize to "AB" and
    "A.B". *)
Theorem normalization_case_insensitive :
  (forall s t, py_lower (L s) = py_lower (L t) ->
     Strict.normalize_name (Some s) = Strict.normalize_name (Some t)) /\
  (forall s t, py_lower (L s) = py_lower (L t) ->
     Ext.normalize_name (Some s) = Ext.normalize_name (Some t)) /\
  (forall s t, py_upper (L s) = py_upper (L t) ->
     Ext.normalize_ticker (Some s) = Ext.normalize_ticker (Some t)) /\
  (py_upper (L "a.b.cn") = py_upper (L "A.B.CN") /\
   Strict.normalize_ticker (Some "a.b.cn") = Some "AB" /\
   Strict.normalize_ticker (Some "A.B.CN") = Some "A.B").
Proof.
  split; [|split; [|split]].
  - intros s t. apply name_case_insensitive.
  - intros s t. apply name_case_insensitive.
  - apply ext_ticker_case_insensitive.
  - split; [|split]; vm_compute; reflexivity.
Qed.

Lemma normalize_name_with_stripped_out sfx x :
  py_strip (L (normalize_name_with sfx x)) = L (normalize_name_with sfx x).
Proof.
  unfold normalize_name_with. destruct (negb (truthy x)); [reflexivity|].
  rewrite L_S_. apply py_strip_idem.
Qed.

(** X14: the model reads a name as a list of 8-bit characters, with the
    ASCII meaning of [lower()], [\w] and [\s]; on a name of ASCII characters
    (codes below 128) these agree with Python's.  For such a name, the
    normalized name consists of lower-case letters, digits, underscores and
    single spaces, with no space at either end, in both scripts. *)
Theorem normalized_name_shape :
  (forall x, (forall s, x = Some s -> Forall (fun c => (code c < 128)%nat) (L s)) ->
     let z := L (Strict.normalize_name x) in
     Forall (fun c => good_name_char c = true) z /\ nds z = true /\ py_strip z = z) /\
  (forall x, (forall s, x = Some s -> Forall (fun c => (code c < 128)%nat) (L s)) ->
     let z := L (Ext.normalize_name x) in
     Forall (fun c => good_name_char c = true) z /\ nds z = true /\ py_strip z = z).
Proof.
  split; intros x _; cbv zeta.
  - destruct (normalize_name_with_shape Strict.name_suffixes x) as [A B].
    split; [exact A|split; [exact B|apply normalize_name_with_stripped_out]].
  - destruct (normalize_name_with_shape Ext.name_suffixes x) as [A B].
    split; [exact A|split; [exact B|apply normalize_name_with_stripped_out]].
Qed.



Lemma in_if_last {A} (y : A) (l : list A) (b : bool) : b = true -> In y (if b then l ++ [y] else l).
Proof. intros ->. apply in_or_app. right. left. reflexivity. Qed.

Ltac alias_in :=
  repeat match goal with
  | |- In _ (if _ then _ ++ [_] else _) => first [apply in_if_last; assumption | apply in_if_snoc]
  | |- In _ (if ?b then _ else _) => destruct b
  | |- In _ (_ ++ _) => apply in_or_app; left
  end; try (left; reflexivity).

(** X16: the aliases of a name have no duplicates and include the name
    itself; for a name with [&] they include the name with [&] replaced by
    [and], and for a name containing " and " (mapping_script2.py: in its
    lower-cased form) the name with " and " replaced by " & ". *)
Theorem aliases_keep_name_and_variants :
  (forall name, let al := Strict.extract_company_aliases name in
     NoDup al /\ In name al /\
     (has_char "&"%char (L name) = true -> In (S_ (py_replace (L "&") (L "and") (L name))) al) /\
     (contains (L " and ") (L name) = true ->
        In (S_ (py_replace (L " and ") (L " & ") (L name))) al)) /\
  (forall name, let al := Ext.extract_company_aliases name in
     NoDup al /\ In name al /\
     (has_char "&"%char (L name) = true -> In (S_ (py_replace (L "&") (L "and") (L name))) al) /\
     (contains (L " and ") (py_lower (L name)) = true ->
        In (S_ (py_replace (L " and ") (L " & ") (L name))) al)).
Proof.
  split; intros name; cbv zeta.
  - unfold Strict.extract_company_aliases, py_set_list. cbv zeta.
    split; [apply NoDup_nodup|]. split; [|split]; [|intros H; apply nodup_In..]; [apply nodup_In|..].
    all: alias_in.
  - unfold Ext.extract_company_aliases, py_set_list. cbv zeta.
    split; [apply NoDup_nodup|]. split; [|split]; [|intros H; apply nodup_In..]; [apply nodup_In|..].
    all: alias_in.
Qed.

(** X17: [fetch_company_by_id] writes the cache file only as a copy of
    the whole cache at a moment its size is a multiple of 50; otherwise the
    file is unchanged, in both scripts. *)
Theorem fetch_saves_cache_at_multiples_of_50 :
  (forall site gid w, let r := Strict.fetch_company_by_id site gid w in
     cache_file (snd r) = cache_file w \/
     (cache_file (snd r) = Some (cache (snd r)) /\ Nat.modulo (length (cache (snd r))) 50 = 0%nat)) /\
  (forall site gid w, let r := Ext.fetch_company_by_id site gid w in
     cache_file (snd r) = cache_file w \/
     (cache_file (snd r) = Some (cache (snd r)) /\ Nat.modulo (length (cache (snd r))) 50 = 0%nat)).
Proof.
  split; intros site gid w; cbv zeta.
  - unfold Strict.fetch_company_by_id. cbv zeta.
    destruct (dict_get _ _ _); [left; reflexivity|].
    destruct (site gid) as [| |[n|] t e]; [left; reflexivity..| |].
    + destruct (truthy (Some n)).
      all: match goal with |- context [Nat.eqb (Nat.modulo ?k 50) 0] =>
             destruct (Nat.eqb (Nat.modulo k 50) 0) eqn:E end.
      all: try (left; reflexivity).
      all: right; split; [reflexivity|apply Nat.eqb_eq; exact E].
    + match goal with |- context [Nat.eqb (Nat.modulo ?k 50) 0] =>
        destruct (Nat.eqb (Nat.modulo k 50) 0) eqn:E end.
      all: try (left; reflexivity).
      right; split; [reflexivity|apply Nat.eqb_eq; exact E].
  - unfold Ext.fetch_company_by_id. cbv zeta.
    destruct (dict_get _ _ _); [left; reflexivity|].
    destruct (site gid) as [| |[n|] t e]; [| left; reflexivity| |].
    all: try destruct (truthy (Some n)).
    all: match goal with |- context [Nat.eqb (Nat.modulo ?k 50) 0] =>
           destruct (Nat.eqb (Nat.modulo k 50) 0) eqn:E end.
    all: try (left; reflexivity).
    all: right; split; [reflexivity|apply Nat.eqb_eq; exact E].
Qed.

Lemma fetch_repeat_uses_cache_witness :
  (site1 2 <> RequestFailed /\
   Strict.fetch_company_by_id site1 2 (snd (Strict.fetch_company_by_id site1 2 w0)) =
   Strict.fetch_company_by_id site1 2 w0) /\
  (dict_get String.eqb (gs_cache_key 3) (cache w0) = None /\ site_down 3 = RequestFailed /\
   fst (Ext.fetch_company_by_id site_down 3 w0) = None /\
   fetch_log (snd (Ext.fetch_company_by_id site_down 3 (snd (Ext.fetch_company_by_id site_down 3 w0)))) =
     fetch_log w0 ++ [3%Z; 3%Z]).
Proof.
  split.
  - assert (H : site1 2 <> RequestFailed) by (cbv; discriminate).
    split; [exact H|]. exact (proj1 fetch_repeat_uses_cache site1 2%Z w0 H).
  - assert (H1 : dict_get String.eqb (gs_cache_key 3) (cache w0) = None) by reflexivity.
    assert (H2 : site_down 3 = RequestFailed) by reflexivity.
    split; [exact H1|split; [exact H2|]].
    exact (proj2 (proj2 (proj2 fetch_repeat_uses_cache)) site_down 3%Z w0 H1 H2).
Defined.


Lemma ticker_index_sound_last_wins_witness :
  Strict.normalize_ticker (Goldstock.ticker gA) = Some "ACM" /\
  Strict.normalize_ticker (Goldstock.ticker gB) = Some "ACM" /\
  dict_get String.eqb "ACM" (fst (Strict.build_indexes ([gA] ++ gB :: []))) = Some gB /\
  (In gB [gA; gB] /\ "ACM" <> "" /\ Ext.normalize_ticker (Goldstock.ticker gB) = Some "ACM").
Proof.
  assert (HA : Strict.normalize_ticker (Goldstock.ticker gA) = Some "ACM") by (vm_compute; reflexivity).
  assert (HB : Strict.normalize_ticker (Goldstock.ticker gB) = Some "ACM") by (vm_compute; reflexivity).
  assert (Hk : "ACM" <> "") by discriminate.
  assert (HE : dict_get String.eqb "ACM" (Ext.build_ticker_index [gA; gB]) = Some gB)
    by (vm_compute; reflexivity).
  split; [exact HA|split; [exact HB|split]].
  - apply (proj1 (proj2 ticker_index_sound_last_wins) [gA] gB [] "ACM" HB Hk).
    intros g' [].
  - exact (proj1 (proj2 (proj2 ticker_index_sound_last_wins)) [gA; gB] "ACM" gB HE).
Defined.

Lemma name_index_sound_last_wins_witness :
  Strict.normalize_name (Some (Goldstock.company_name gA)) = "acme" /\
  dict_get String.eqb "acme" (snd (Strict.build_indexes ([gA] ++ gB :: []))) = Some gB /\
  (In gB [gA; gB] /\ "acme" <> "" /\
   In "acme" (map (fun s => Ext.normalize_name (Some s)) (Goldstock.company_name gB :: Goldstock.aliases gB))).
Proof.
  assert (HA : Strict.normalize_name (Some (Goldstock.company_name gA)) = "acme") by (vm_compute; reflexivity).
  assert (HB : In "acme" (map (fun s => Strict.normalize_name (Some s))
                             (Goldstock.company_name gB :: Goldstock.aliases gB)))
    by (vm_compute; auto).
  assert (Hk : "acme" <> "") by discriminate.
  assert (HE : dict_get String.eqb "acme" (Ext.build_name_index [gA; gB]) = Some gB)
    by (vm_compute; reflexivity).
  split; [exact HA|split].
  - apply (proj1 (proj2 name_index_sound_last_wins) [gA] gB [] "acme" HB Hk).
    intros g' [].
  - exact (proj1 (proj2 (proj2 name_index_sound_last_wins)) [gA; gB] "acme" gB HE).
Defined.

Lemma matching_links_justified_witness :
  [gA; gB] <> [] /\
  Forall2 (link_justified Ext.normalize_ticker Ext.normalize_name 70%Z 85%Z sc0 [gA; gB] known_mappings)
    [Company.mk 1 "Acme Gold Corp" (Some "ACM.V"); c1_company]
    (fst (Ext.perform_matching sc0 [Company.mk 1 "Acme Gold Corp" (Some "ACM.V"); c1_company]
            [gA; gB] known_mappings w0)).
Proof.
  assert (H : [gA; gB] <> []) by discriminate.
  split; [exact H|].
  exact (proj1 (proj2 matching_links_justified) sc0 _ [gA; gB] known_mappings w0 H).
Defined.

Lemma perform_matching_persists_witness :
  [c1_company] <> [] /\ [gA] <> [] /\
  saved_run (fst (Ext.perform_matching sc0 [c1_company] [gA] known_mappings w0)) w0
    (snd (Ext.perform_matching sc0 [c1_company] [gA] known_mappings w0)).
Proof.
  assert (H1 : [c1_company] <> []) by discriminate.
  assert (H2 : [gA] <> []) by discriminate.
  split; [exact H1|split; [exact H2|]].
  exact (proj1 (proj2 perform_matching_persists) sc0 [c1_company] [gA] known_mappings w0 H1 H2).
Defined.





Lemma limit_zero_witness :
  limit argsz = Some 0%Z /\
  Strict.load_companies (Some 0%Z) data1 = Strict.load_companies None data1 /\
  snd (Ext.main sc0 argsz data1 site1 w0) = sys_exit 1 /\
  fetch_log (fst (Ext.main sc0 argsz data1 site1 w0)) = fetch_log w0.
Proof.
  assert (H : limit argsz = Some 0%Z) by reflexivity.
  split; [exact H|split; [exact (proj1 limit_zero data1)|]].
  destruct (proj2 limit_zero sc0 argsz data1 site1 w0 H) as (A & B & _).
  split; [exact A|exact B].
Defined.


Lemma normalization_case_insensitive_witness :
  py_lower (L "ACME Gold Inc.") = py_lower (L "acme gold inc.") /\
  Ext.normalize_name (Some "ACME Gold Inc.") = Ext.normalize_name (Some "acme gold inc.") /\
  py_upper (L "tsx:abc.v") = py_upper (L "TSX:ABC.V") /\
  Ext.normalize_ticker (Some "tsx:abc.v") = Ext.normalize_ticker (Some "TSX:ABC.V").
Proof.
  assert (H1 : py_lower (L "ACME Gold Inc.") = py_lower (L "acme gold inc.")) by (vm_compute; reflexivity).
  assert (H2 : py_upper (L "tsx:abc.v") = py_upper (L "TSX:ABC.V")) by (vm_compute; reflexivity).
  split; [exact H1|split; [exact (proj1 (proj2 normalization_case_insensitive) _ _ H1)|]].
  split; [exact H2|exact (proj1 (proj2 (proj2 normalization_case_insensitive)) _ _ H2)].
Defined.

Lemma normalized_name_shape_witness :
  Forall (fun c => (code c < 128)%nat) (L "Acme-Gold  (Mines) Inc.") /\
  L (Strict.normalize_name (Some "Acme-Gold  (Mines) Inc.")) = L "acme gold mines" /\
  Forall (fun c => good_name_char c = true) (L (Strict.normalize_name (Some "Acme-Gold  (Mines) Inc."))) /\
  nds (L (Ext.normalize_name (Some "Acme-Gold  (Mines) Inc."))) = true.
Proof.
  assert (H : Forall (fun c => (code c < 128)%nat) (L "Acme-Gold  (Mines) Inc.")).
  { apply Forall_forall. intros c Hc. vm_compute in Hc.
    repeat (destruct Hc as [<-|Hc]; [vm_compute; lia|]). destruct Hc. }
  assert (Ha : forall s, Some "Acme-Gold  (Mines) Inc." = Some s ->
                 Forall (fun c => (code c < 128)%nat) (L s))
    by (intros s E; injection E as <-; exact H).
  split; [exact H|split; [vm_compute; reflexivity|split]].
  - exact (proj1 (proj1 normalized_name_shape _ Ha)).
  - exact (proj1 (proj2 (proj2 normalized_name_shape _ Ha))).
Defined.


Lemma aliases_keep_name_and_variants_witness :
  has_char "&"%char (L "Gold & Silver Co") = true /\
  In "Gold and Silver Co" (Strict.extract_company_aliases "Gold & Silver Co") /\
  contains (L " and ") (py_lower (L "Gold and Silver Co")) = true /\
  In "Gold & Silver Co" (Ext.extract_company_aliases "Gold and Silver Co").
Proof.
  assert (H1 : has_char "&"%char (L "Gold & Silver Co") = true) by reflexivity.
  assert (H2 : contains (L " and ") (py_lower (L "Gold and Silver Co")) = true) by (vm_compute; reflexivity).
  split; [exact H1|split; [|split; [exact H2|]]].
  - exact (proj1 (proj2 (proj2 (proj1 aliases_keep_name_and_variants "Gold & Silver Co"))) H1).
  - exact (proj2 (proj2 (proj2 (proj2 aliases_keep_name_and_variants "Gold and Silver Co"))) H2).
Defined.
